(** * k1util: Ethereum RSV signatures and secp256k1 key conversions

    A shallow embedding of [lib/k1util/k1util.go].  The package is glue
    code over external libraries (decred's secp256k1, go-ethereum's
    [crypto], the Cosmos SDK): its functions check lengths, call the
    libraries and reshape their answers.  The embedding keeps that shape:
    a function of the package is a program that returns, panics or calls a
    library function and continues with its answer.  What a library answers
    is not fixed here; a handler interprets the calls. *)

From Stdlib Require Import ZArith List String Ascii Bool Lia.
Import ListNotations.

Local Open Scope Z_scope.

(** ** Bytes

    A Go [byte] is a [Z] in [0, 256); [[]byte] and the fixed-size arrays
    [[32]byte], [[65]byte], [common.Address] are lists of bytes, the array
    length being a side condition of the statements. *)

Abbreviation byte := Z (only parsing).
Abbreviation bytes := (list Z) (only parsing).

(** Go's [a[i]] on an array: the index is in range by typing. *)
Definition at_index (a : bytes) (i : nat) : byte := nth i a 0.

(** Go's [a[i] = v] on an array. *)
Fixpoint set_index (a : bytes) (i : nat) (v : byte) : bytes :=
  match a, i with
  | [], _ => []
  | _ :: t, O => v :: t
  | h :: t, S j => h :: set_index t j v
  end.

(** The zero value of a byte array of length [n]. *)
Definition zero_array (n : nat) : bytes := repeat 0 n.

(** Go's [==] on byte arrays of one length. *)
Fixpoint bytes_eqb (a b : bytes) : bool :=
  match a, b with
  | [], [] => true
  | x :: a', y :: b' => (x =? y) && bytes_eqb a' b'
  | _, _ => false
  end.

(** ** Errors *)

Module errors.

(** Modelled from the spec: the package [lib/errors] ([errors.New],
    [errors.Wrap]).  An error names the failed operation and carries its
    context, such as the offending length; wrapping adds the name of the
    operation that failed around the cause.  [Foreign] is an error made
    by an external library, identified by its message. *)
Inductive error : Type :=
| New (msg : string) (attrs : list (string * Z))
| Wrap (cause : error) (msg : string)
| Foreign (msg : string).

End errors.
Import errors.

(** A Go result pair [(value, error)]; [None] is the [nil] error. *)
Abbreviation result A := (A * option error)%type (only parsing).

(** ** Programs over a library interface *)

(** What a call does: it returns a value or it panics. *)
Inductive Outcome (A : Type) : Type :=
| Returns (a : A)
| Panics.
Arguments Returns {A} a.
Arguments Panics {A}.

Section Programs.

(** [E X] is the type of the calls to the libraries that answer in [X]. *)
Context {E : Type -> Type}.

Inductive Prog (A : Type) : Type :=
| Ret (a : A)
| Panic
| Call (X : Type) (e : E X) (k : X -> Prog A).

Arguments Ret {A} a.
Arguments Panic {A}.
Arguments Call {A X} e k.

Fixpoint bind {A B : Type} (p : Prog A) (f : A -> Prog B) : Prog B :=
  match p with
  | Ret a => f a
  | Panic => Panic
  | Call e k => Call e (fun x => bind (k x) f)
  end.

(** A library: its answer to every call. *)
Definition Handler : Type := forall X : Type, E X -> Outcome X.

Fixpoint run (h : Handler) {A : Type} (p : Prog A) : Outcome A :=
  match p with
  | Ret a => Returns a
  | Panic => Panics
  | Call e k =>
      match h _ e with
      | Returns x => run h (k x)
      | Panics => Panics
      end
  end.

(** The calls a program makes under a handler, in order. *)
Fixpoint calls (h : Handler) {A : Type} (p : Prog A) : list {X : Type & E X} :=
  match p with
  | Ret _ | Panic => []
  | Call e k =>
      existT _ _ e ::
      match h _ e with
      | Returns x => calls h (k x)
      | Panics => []
      end
  end.

(** A program that calls no library. *)
Definition pure {A : Type} (p : Prog A) : Prop :=
  match p with
  | Ret _ | Panic => True
  | Call _ _ => False
  end.

End Programs.

Arguments Prog E A : clear implicits.
Arguments Handler E : clear implicits.
Arguments Ret {E A} a.
Arguments Panic {E A}.
Arguments Call {E A X} e k.

Notation "x <- c ;; k" := (Call c (fun x => k))
  (at level 61, c at next level, right associativity).

(** ** The types of the libraries *)

(** [crypto.PubKey] and [crypto.PrivKey] of CometBFT are interfaces; the
    package reads a key through [Bytes()], and a private key has its
    [PubKey()]. *)
Module crypto.
Record PubKey : Type := { PubKey_Bytes : bytes }.
Record PrivKey : Type := { Bytes : bytes; PubKey_of : PubKey }.
End crypto.

(** [secp256k1.PrivateKey] of decred: a scalar modulo the group order. *)
Module secp256k1.
Record PrivateKey : Type := { Key : Z }.
Definition PubKeyBytesLenCompressed : nat := 33.
End secp256k1.

(** [crypto/ecdsa.PublicKey] on the curve S256: the affine coordinates. *)
Module stdecdsa.
Record PublicKey : Type := { X : Z; Y : Z }.
End stdecdsa.

(** [cosmos-sdk/crypto/keys/secp256k1.PubKey]. *)
Module cosmosk1.
Record PubKey : Type := { Key : bytes }.
End cosmosk1.

(** [cryptopb.PublicKey]: a protobuf oneof, possibly unset. *)
Module cryptopb.
Inductive isPublicKey_Sum : Type :=
| Sum_nil
| PublicKey_Ed25519 (Ed25519 : bytes)
| PublicKey_Secp256K1 (Secp256K1 : bytes).
Record PublicKey : Type := { Sum : isPublicKey_Sum }.

Definition GetSecp256K1 (m : PublicKey) : bytes :=
  match Sum m with
  | PublicKey_Secp256K1 b => b
  | _ => []
  end.
End cryptopb.

(** ** The calls to the libraries

    A pointer result is an [option]; [None] is [nil]. *)

(** Calls into decred's secp256k1 and go-ethereum's [crypto]. *)
Inductive K1Call : Type -> Type :=
| secp256k1_PrivKeyFromBytes (b : bytes) : K1Call secp256k1.PrivateKey
| ecdsa_SignCompact (key : secp256k1.PrivateKey) (hash : bytes)
    (isCompressedKey : bool) : K1Call bytes
| ethcrypto_SigToPub (hash sig : bytes) : K1Call (result (option stdecdsa.PublicKey))
| ethcrypto_PubkeyToAddress (p : stdecdsa.PublicKey) : K1Call bytes
| ethcrypto_DecompressPubkey (pubkey : bytes) : K1Call (result (option stdecdsa.PublicKey))
| ethcrypto_UnmarshalPubkey (pub : bytes) : K1Call (result (option stdecdsa.PublicKey))
| ethcrypto_FromECDSAPub (pub : option stdecdsa.PublicKey) : K1Call bytes.

(** Calls into the Cosmos SDK. *)
Inductive CosmosCall : Type -> Type :=
| PubKey_Address (pk : cosmosk1.PubKey) : CosmosCall bytes
| AccAddress_String (addr : bytes) : CosmosCall string
| ValAddress_String (addr : bytes) : CosmosCall string.

(** ** Go's standard library: [strings.Replace] and [encoding/hex] *)

Module strings.

(** [strings.Replace(s, old, new, n)] for a non-empty [old] and [n >= 0]:
    the first [n] non-overlapping occurrences of [old], from the left,
    are replaced by [new].  [skip] counts the characters of a matched
    occurrence that are still to drop. *)
Fixpoint Replace_from (old new : string) (s : string) (n skip : nat) : string :=
  match s with
  | EmptyString => EmptyString
  | String c s' =>
      match skip with
      | S j => Replace_from old new s' n j
      | O =>
          match n with
          | O => s
          | S n' =>
              if prefix old s
              then new ++ Replace_from old new s' n' (String.length old - 1)
              else String c (Replace_from old new s' n 0)
          end
      end
  end%string.

Definition Replace (s old new : string) (n : nat) : string :=
  Replace_from old new s n 0.

End strings.

Module hex.

Definition ErrLength : error := Foreign "encoding/hex: odd length hex string".
Definition InvalidByteError (c : ascii) : error :=
  Foreign ("encoding/hex: invalid byte: " ++ String c EmptyString).

(** The value of a hexadecimal digit of either case. *)
Definition fromHexChar (c : ascii) : option Z :=
  let n := Z.of_nat (nat_of_ascii c) in
  if (48 <=? n) && (n <=? 57) then Some (n - 48)
  else if (97 <=? n) && (n <=? 102) then Some (n - 97 + 10)
  else if (65 <=? n) && (n <=? 70) then Some (n - 65 + 10)
  else None.

(** [hex.Decode]: pairs of digits from the left; the bytes decoded before
    the first fault are returned with the error.  On an odd length the
    last character is checked before the length is reported. *)
Fixpoint Decode (src : list ascii) : result bytes :=
  match src with
  | [] => ([], None)
  | [p] =>
      match fromHexChar p with
      | None => ([], Some (InvalidByteError p))
      | Some _ => ([], Some ErrLength)
      end
  | p :: q :: rest =>
      match fromHexChar p with
      | None => ([], Some (InvalidByteError p))
      | Some a =>
          match fromHexChar q with
          | None => ([], Some (InvalidByteError q))
          | Some b =>
              let '(out, err) := Decode rest in
              (Z.lor (Z.shiftl a 4) b :: out, err)
          end
      end
  end.

Definition DecodeString (s : string) : result bytes :=
  Decode (list_ascii_of_string s).

End hex.

(** No character of a text is the letter x: such a text holds no [0x]. *)
Fixpoint x_free (s : string) : Prop :=
  match s with
  | EmptyString => True
  | String c s' => c <> "x"%char /\ x_free s'
  end.

Fixpoint x_free_list (l : list ascii) : Prop :=
  match l with
  | [] => True
  | c :: l' => c <> "x"%char /\ x_free_list l'
  end.

(** ** The package [lib/cast] *)

Module cast.

(** Modelled from the spec: [cast.Array65] of the package [lib/cast].  A
    slice of exactly 65 bytes is returned as the array; any other length
    is a length-mismatch error with the zero array. *)
Definition Array65 (slice : bytes) : result bytes :=
  if Nat.eqb (List.length slice) 65
  then (slice, None)
  else (zero_array 65,
        Some (New "slice length not 65" [("len"%string, Z.of_nat (List.length slice))])).

End cast.

(** ** The package [k1util] *)

Module k1util.

(** [privKeyLen] is the length of a secp256k1 private key. *)
Definition privKeyLen : nat := 32.

(** [pubkeyCompressedLen] is the length of a secp256k1 compressed public key. *)
Definition pubkeyCompressedLen : nat := 33.

(** [pubkeyUncompressedLen] is the length of a secp256k1 uncompressed public key. *)
Definition pubkeyUncompressedLen : nat := 65.

Definition ErrInvalidPrivKeyLength : error :=
  New "invalid private key length" [].

Definition ErrInvalidRecoveryID : error :=
  New "invalid recovery id (V) format, must be 27 or 28" [].

Definition ErrInvalidPubkeyLength (n : nat) : error :=
  New "invalid pubkey length" [("length"%string, Z.of_nat n)].

(** [Sign] returns a signature from input data: 65 bytes in the
    [R || S || V] format.  [append(sig[1:], sig[0])] panics on an empty
    [sig]. *)
Definition Sign (key : crypto.PrivKey) (input : bytes) : Prog K1Call (result bytes) :=
  let bz := crypto.Bytes key in
  if negb (Nat.eqb (List.length bz) privKeyLen) then
    Ret (zero_array 65, Some ErrInvalidPrivKeyLength)
  else
    priv <- secp256k1_PrivKeyFromBytes bz ;;
    sig <- ecdsa_SignCompact priv input false ;;
    match sig with
    | [] => Panic
    | sig0 :: sig1 => Ret (cast.Array65 (sig1 ++ [sig0]))
    end.

Definition vIdx : nat := 64.

(** [Verify] returns whether the 65 byte signature is valid for the
    provided hash and Ethereum address.  [sig] is an array, passed by
    value: the adjustment of V is local. *)
Definition Verify (address : bytes) (hash : bytes) (sig : bytes)
  : Prog K1Call (result bool) :=
  let v := at_index sig vIdx in
  if negb (v =? 27) && negb (v =? 28) then
    Ret (false, Some ErrInvalidRecoveryID)
  else
    let sig := set_index sig vIdx ((v - 27) mod 256) in
    r <- ethcrypto_SigToPub hash sig ;;
    match r with
    | (_, Some err) => Ret (false, Some (Wrap err "recover public key"))
    | (None, None) => Panic
    | (Some pubkey, None) =>
        actual <- ethcrypto_PubkeyToAddress pubkey ;;
        Ret (bytes_eqb actual address, None)
    end.

(** [PubKeyToAddress] returns the Ethereum address for the given k1 public
    key.  [*ethPubKey] panics on a nil pointer. *)
Definition PubKeyToAddress (pubkey : crypto.PubKey) : Prog K1Call (result bytes) :=
  let pubkeyBytes := crypto.PubKey_Bytes pubkey in
  if negb (Nat.eqb (List.length pubkeyBytes) pubkeyCompressedLen) then
    Ret (zero_array 20, Some (ErrInvalidPubkeyLength (List.length pubkeyBytes)))
  else
    r <- ethcrypto_DecompressPubkey pubkeyBytes ;;
    match r with
    | (_, Some err) => Ret (zero_array 20, Some (Wrap err "decompress pubkey"))
    | (None, None) => Panic
    | (Some ethPubKey, None) =>
        addr <- ethcrypto_PubkeyToAddress ethPubKey ;;
        Ret (addr, None)
    end.

Definition PubKeyBytesToCosmos (pubkey : bytes) : Prog K1Call (result (option cosmosk1.PubKey)) :=
  if negb (Nat.eqb (List.length pubkey) pubkeyCompressedLen) then
    Ret (None, Some (ErrInvalidPubkeyLength (List.length pubkey)))
  else Ret (Some {| cosmosk1.Key := pubkey |}, None).

Definition PubKeyToCosmos (pubkey : crypto.PubKey) : Prog K1Call (result (option cosmosk1.PubKey)) :=
  PubKeyBytesToCosmos (crypto.PubKey_Bytes pubkey).

Definition PBPubKeyFromBytes (pubkey : bytes) : Prog K1Call (result cryptopb.PublicKey) :=
  if negb (Nat.eqb (List.length pubkey) pubkeyCompressedLen) then
    Ret ({| cryptopb.Sum := cryptopb.Sum_nil |},
         Some (ErrInvalidPubkeyLength (List.length pubkey)))
  else Ret ({| cryptopb.Sum := cryptopb.PublicKey_Secp256K1 pubkey |}, None).

(** [PubKeyPBToAddress] returns the Ethereum address for the given k1 public key. *)
Definition PubKeyPBToAddress (pubkey : cryptopb.PublicKey) : Prog K1Call (result bytes) :=
  let pubkeyBytes := cryptopb.GetSecp256K1 pubkey in
  if negb (Nat.eqb (List.length pubkeyBytes) pubkeyCompressedLen) then
    Ret (zero_array 20, Some (ErrInvalidPubkeyLength (List.length pubkeyBytes)))
  else
    r <- ethcrypto_DecompressPubkey pubkeyBytes ;;
    match r with
    | (_, Some err) => Ret (zero_array 20, Some (Wrap err "decompress pubkey"))
    | (None, None) => Panic
    | (Some ethPubKey, None) =>
        addr <- ethcrypto_PubkeyToAddress ethPubKey ;;
        Ret (addr, None)
    end.

(** [PubKeyToBytes64] returns the 64 byte uncompressed version of the
    public key, by removing the prefix.  Slicing [[1:]] panics on an
    empty slice. *)
Definition PubKeyToBytes64 (pubkey : option stdecdsa.PublicKey) : Prog K1Call bytes :=
  b <- ethcrypto_FromECDSAPub pubkey ;;
  match b with
  | [] => Panic
  | _ :: rest => Ret rest
  end.

Definition prefix04 : byte := 4.

(** [PubKeyFromBytes64] returns the public key from the 64 byte
    uncompressed version.  It adds the prefix to the input bytes. *)
Definition PubKeyFromBytes64 (pubkey : bytes)
  : Prog K1Call (result (option stdecdsa.PublicKey)) :=
  if negb (Nat.eqb (List.length pubkey) (pubkeyUncompressedLen - 1)) then
    Ret (None, Some (ErrInvalidPubkeyLength (List.length pubkey)))
  else
    r <- ethcrypto_UnmarshalPubkey ([prefix04] ++ pubkey) ;;
    match r with
    | (_, Some err) => Ret (None, Some (Wrap err "unmarshal pubkey"))
    | (resp, None) => Ret (resp, None)
    end.

(** [CosmosPubkeyToEVMAddress] converts a 33-byte Cosmos pubkey to a
    20-byte EVM address.  The results are named: on an error [addr] is
    still the zero address, and the library's error is returned as it is. *)
Definition CosmosPubkeyToEVMAddress (pubkeyCmp : bytes) : Prog K1Call (result bytes) :=
  r <- ethcrypto_DecompressPubkey pubkeyCmp ;;
  match r with
  | (_, Some err) => Ret (zero_array 20, Some err)
  | (None, None) => Panic
  | (Some key, None) =>
      addr <- ethcrypto_PubkeyToAddress key ;;
      Ret (addr, None)
  end.

Definition decodePubKeyFromHex (pubKeyHex : string) : result (option cosmosk1.PubKey) :=
  let cmpPubKeyHex := strings.Replace pubKeyHex "0x" "" 1 in
  match hex.DecodeString cmpPubKeyHex with
  | (_, Some err) => (None, Some (Wrap err "invalid compressed public key"))
  | (cmpPubKey, None) =>
      if negb (Nat.eqb (List.length cmpPubKey) secp256k1.PubKeyBytesLenCompressed) then
        (None, Some (New "invalid compressed public key"
                         [("length"%string, Z.of_nat (List.length cmpPubKey))]))
      else (Some {| cosmosk1.Key := cmpPubKey |}, None)
  end.

Definition CmpPubKeyToDelegatorAddress (cmpPubKeyHex : string)
  : Prog CosmosCall (result string) :=
  match decodePubKeyFromHex cmpPubKeyHex with
  | (_, Some err) => Ret (EmptyString, Some (Wrap err "invalid compressed public key"))
  | (None, None) => Panic
  | (Some pubKey, None) =>
      a <- PubKey_Address pubKey ;;
      s <- AccAddress_String a ;;
      Ret (s, None)
  end.

Definition CmpPubKeyToValidatorAddress (cmpPubKeyHex : string)
  : Prog CosmosCall (result string) :=
  match decodePubKeyFromHex cmpPubKeyHex with
  | (_, Some err) => Ret (EmptyString, Some (Wrap err "invalid compressed public key"))
  | (None, None) => Panic
  | (Some pubKey, None) =>
      a <- PubKey_Address pubKey ;;
      s <- ValAddress_String a ;;
      Ret (s, None)
  end.

End k1util.

(** ** The curve and a recorded test vector

    The parameters of secp256k1 (SEC 2) and the byte encodings of its
    points, followed by one signature recorded from the libraries: the
    private key 1, whose public key is the generator, signing the SHA-256
    digest of the text [Satoshi Nakamoto] with the RFC 6979 nonce. *)

Module S256.

Definition P : Z := 0xFFFFFFFFFFFFFFFFFFFFFFFFFFFFFFFFFFFFFFFFFFFFFFFFFFFFFFFEFFFFFC2F.
Definition N : Z := 0xFFFFFFFFFFFFFFFFFFFFFFFFFFFFFFFEBAAEDCE6AF48A03BBFD25E8CD0364141.

(** [y^2 = x^3 + 7] over the field of [P] elements. *)
Definition IsOnCurve (x y : Z) : bool :=
  (0 <=? x) && (x <? P) && (0 <=? y) && (y <? P) &&
  ((y * y) mod P =? (x * x * x + 7) mod P).

(** [a^e] modulo [m], by squaring. *)
Fixpoint powmod (a : Z) (e : positive) (m : Z) : Z :=
  match e with
  | xH => a mod m
  | xO e' => let t := powmod a e' m in (t * t) mod m
  | xI e' => let t := powmod a e' m in (((t * t) mod m) * a) mod m
  end.

(** Whether [x] is the abscissa of a point of the curve: [x^3 + 7] is
    zero or, by Euler's criterion for the prime [P], a square. *)
Definition is_abscissa (x : Z) : bool :=
  let c := (x * x * x + 7) mod P in
  (c =? 0) || (powmod c (Z.to_pos ((P - 1) / 2)) P =? 1).

(** Big-endian bytes to an integer, and an integer to [n] big-endian bytes. *)
Definition from_bytes (b : bytes) : Z :=
  fold_left (fun acc x => acc * 256 + x) b 0.

Fixpoint to_bytes (n : nat) (z : Z) : bytes :=
  match n with
  | O => []
  | S k => to_bytes k (z / 256) ++ [z mod 256]
  end.

(** The uncompressed encoding of a point: [0x04 || X || Y]. *)
Definition Marshal (p : stdecdsa.PublicKey) : bytes :=
  4 :: to_bytes 32 (stdecdsa.X p) ++ to_bytes 32 (stdecdsa.Y p).

(** The point an uncompressed encoding stands for, when it is on the curve. *)
Definition Unmarshal (pub : bytes) : option stdecdsa.PublicKey :=
  match pub with
  | 4 :: xy =>
      let x := from_bytes (firstn 32 xy) in
      let y := from_bytes (skipn 32 xy) in
      if Nat.eqb (List.length xy) 64 && IsOnCurve x y
      then Some {| stdecdsa.X := x; stdecdsa.Y := y |}
      else None
  | _ => None
  end.

End S256.

Module vector.

Definition privkey : bytes :=
  [0; 0; 0; 0; 0; 0; 0; 0; 0; 0; 0; 0; 0; 0; 0; 0;
   0; 0; 0; 0; 0; 0; 0; 0; 0; 0; 0; 0; 0; 0; 0; 1].

Definition digest : bytes :=
  [160; 220; 101; 255; 202; 121; 152; 115; 203; 234; 10; 194; 116; 1; 91; 149;
   38; 80; 93; 170; 174; 211; 133; 21; 84; 37; 247; 51; 119; 4; 136; 62].

Definition sig_r : bytes :=
  [147; 75; 30; 161; 10; 75; 60; 23; 87; 226; 176; 192; 23; 208; 182; 20;
   60; 227; 201; 167; 230; 164; 164; 152; 96; 215; 166; 171; 33; 14; 227; 216].

Definition sig_s : bytes :=
  [36; 66; 206; 157; 43; 145; 96; 100; 16; 128; 20; 120; 62; 146; 62; 195;
   107; 73; 116; 62; 47; 250; 28; 68; 150; 240; 26; 81; 42; 175; 217; 229].

(** The recovery id of the recorded signature. *)
Definition recid : Z := 1.

(** The generator: the public key of the private key 1. *)
Definition pubkey : stdecdsa.PublicKey :=
  {| stdecdsa.X := 0x79BE667EF9DCBBAC55A06295CE870B07029BFCDB2DCE28D959F2815B16F81798;
     stdecdsa.Y := 0x483ADA7726A3C4655DA4FBFC0E1108A8FD17B448A68554199C47D08FFB10D4B8 |}.

Definition pubkey_compressed : bytes :=
  2 :: S256.to_bytes 32 (stdecdsa.X pubkey).

Definition pubkey_hex : string :=
  "0279be667ef9dcbbac55a06295ce870b07029bfcdb2dce28d959f2815b16f81798".

Definition address : bytes :=
  [126; 95; 69; 82; 9; 26; 105; 18; 93; 93; 252; 183;
   184; 194; 101; 144; 41; 57; 91; 223].

Definition key : crypto.PrivKey :=
  {| crypto.Bytes := privkey;
     crypto.PubKey_of := {| crypto.PubKey_Bytes := pubkey_compressed |} |}.

(** The signature in the [R || S || V] format. *)
Definition signature : bytes := sig_r ++ sig_s ++ [27 + recid].

(** The first byte of R raised by one: no point of the curve has the
    changed R as its abscissa, and the recovery fails. *)
Definition tampered_r : bytes := set_index signature 0 148.

(** The third byte of R raised by one: the recovery succeeds, with
    another key. *)
Definition tampered_r' : bytes := set_index signature 2 31.

Definition pubkey' : stdecdsa.PublicKey :=
  {| stdecdsa.X := 0x3618E8C7755198CC7D841B578F6AC3F1B5947DA0467EDAD924F17F2F69A32D33;
     stdecdsa.Y := 0x769B678E77D40AE03ED03E2533C0FE7809A63ABF0F7324263DD95F14ACA0CE9B |}.

Definition address' : bytes :=
  [238; 83; 120; 243; 174; 15; 82; 143; 179; 110; 62; 237;
   31; 169; 15; 14; 11; 55; 121; 209].

Definition pubkey_eqb (p q : stdecdsa.PublicKey) : bool :=
  (stdecdsa.X p =? stdecdsa.X q) && (stdecdsa.Y p =? stdecdsa.Y q).

(** The signature as [SigToPub] takes it: V lowered to the recovery id. *)
Definition normalized (sig : bytes) : bytes :=
  set_index sig 64 (at_index sig 64 - 27).

(** The libraries replayed on the recorded vector.  The encodings are
    computed; the answers of the signing, recovery, decompression and
    hashing are the recorded ones, and a call outside the record has no
    answer here: the replay stops the program. *)
Definition replay : Handler K1Call :=
  fun X e =>
    match e in K1Call X return Outcome X with
    | secp256k1_PrivKeyFromBytes b =>
        Returns {| secp256k1.Key := S256.from_bytes b mod S256.N |}
    | ecdsa_SignCompact k hash isCompressedKey =>
        if (secp256k1.Key k =? 1) && bytes_eqb hash digest
        then Returns ((27 + recid + (if isCompressedKey then 4 else 0))
                        :: sig_r ++ sig_s)
        else Panics
    | ethcrypto_SigToPub hash sig =>
        if negb (bytes_eqb hash digest) then Panics
        else if bytes_eqb sig (normalized signature)
        then Returns (Some pubkey, None)
        else if bytes_eqb sig (normalized tampered_r)
        then Returns (None, Some (Foreign "recovery failed"))
        else if bytes_eqb sig (normalized tampered_r')
        then Returns (Some pubkey', None)
        else Panics
    | ethcrypto_PubkeyToAddress p =>
        if pubkey_eqb p pubkey then Returns address
        else if pubkey_eqb p pubkey' then Returns address'
        else Panics
    | ethcrypto_DecompressPubkey b =>
        if negb (Nat.eqb (List.length b) 33)
        then Returns (None, Some (Foreign "invalid public key"))
        else if bytes_eqb b pubkey_compressed
        then Returns (Some pubkey, None)
        else Panics
    | ethcrypto_UnmarshalPubkey pub =>
        match S256.Unmarshal pub with
        | Some p => Returns (Some p, None)
        | None => Returns (None, Some (Foreign "invalid secp256k1 public key"))
        end
    | ethcrypto_FromECDSAPub pub =>
        match pub with
        | Some p => Returns (S256.Marshal p)
        | None => Returns []
        end
    end.


End vector.

(** ** The conversions of the standard library's keys *)

(** [crypto/ecdsa.PrivateKey] on the curve S256: the public key and the
    scalar [D]. *)
Module stdecdsa_priv.
Record PrivateKey : Type := { PublicKey : stdecdsa.PublicKey; D : Z }.
End stdecdsa_priv.

(** [cometbft/crypto/secp256k1.PrivKey]: a byte slice; as a
    [crypto.PrivKey] its [Bytes()] is the slice. *)
Module k1.
Record PrivKey : Type := { PrivKey_bz : bytes }.
End k1.

(** Calls into go-ethereum's [crypto] on the standard library's keys. *)
Inductive StdCall : Type -> Type :=
| ethcrypto_FromECDSA (priv : option stdecdsa_priv.PrivateKey) : StdCall bytes
| ethcrypto_ToECDSA (d : bytes) : StdCall (result (option stdecdsa_priv.PrivateKey))
| ethcrypto_CompressPubkey (pubkey : option stdecdsa.PublicKey) : StdCall bytes.

(** Two families of calls side by side, and a program over one of them
    read as a program over both. *)
Inductive sumE (E F : Type -> Type) (X : Type) : Type :=
| inlE (e : E X)
| inrE (f : F X).
Arguments inlE {E F X} e.
Arguments inrE {E F X} f.

Fixpoint translate {E F : Type -> Type} (t : forall X, E X -> F X) {A : Type}
    (p : Prog E A) : Prog F A :=
  match p with
  | Ret a => Ret a
  | Panic => Panic
  | Call e k => Call (t _ e) (fun x => translate t (k x))
  end.

Definition sum_handler {E F : Type -> Type} (hE : Handler E) (hF : Handler F)
  : Handler (sumE E F) :=
  fun X e =>
    match e with
    | inlE e => hE X e
    | inrE f => hF X f
    end.

Definition StdPrivKeyToComet (privkey : option stdecdsa_priv.PrivateKey)
  : Prog StdCall (result (option k1.PrivKey)) :=
  bz <- ethcrypto_FromECDSA privkey ;;
  if negb (Nat.eqb (List.length bz) k1util.privKeyLen) then
    Ret (None, Some k1util.ErrInvalidPrivKeyLength)
  else Ret (Some {| k1.PrivKey_bz := bz |}, None).

Definition StdPrivKeyFromComet (privkey : crypto.PrivKey)
  : Prog StdCall (result (option stdecdsa_priv.PrivateKey)) :=
  let bz := crypto.Bytes privkey in
  if negb (Nat.eqb (List.length bz) k1util.privKeyLen) then
    Ret (None, Some k1util.ErrInvalidPrivKeyLength)
  else
    r <- ethcrypto_ToECDSA bz ;;
    match r with
    | (_, Some err) => Ret (None, Some (Wrap err "convert to ECDSA"))
    | (resp, None) => Ret (resp, None)
    end.

Definition StdPubKeyToCosmos (pubkey : option stdecdsa.PublicKey)
  : Prog (sumE K1Call StdCall) (result (option cosmosk1.PubKey)) :=
  b <- inrE (ethcrypto_CompressPubkey pubkey) ;;
  translate (@inlE K1Call StdCall) (k1util.PubKeyBytesToCosmos b).

(** The conversions replayed: [FromECDSA] pads [D] to 32 bytes,
    [CompressPubkey] writes the parity of Y before X, and [ToECDSA] checks
    the length and the range of the scalar; the public key of a scalar is
    recorded for the scalar 1 alone. *)
Module std_vector.

Definition privkey : stdecdsa_priv.PrivateKey :=
  {| stdecdsa_priv.PublicKey := vector.pubkey; stdecdsa_priv.D := 1 |}.

Definition replay : Handler StdCall :=
  fun X e =>
    match e in StdCall X return Outcome X with
    | ethcrypto_FromECDSA priv =>
        match priv with
        | None => Returns []
        | Some p =>
            let d := stdecdsa_priv.D p in
            if d <? 2 ^ 256
            then Returns (S256.to_bytes 32 d)
            else Returns (S256.to_bytes (Z.to_nat (Z.log2 d / 8 + 1)) d)
        end
    | ethcrypto_ToECDSA d =>
        let n := S256.from_bytes d in
        if negb (Nat.eqb (List.length d) 32)
        then Returns (None, Some (Foreign "invalid length, need 256 bits"))
        else if S256.N <=? n
        then Returns (None, Some (Foreign "invalid private key, >=N"))
        else if n <=? 0
        then Returns (None, Some (Foreign "invalid private key, zero or negative"))
        else if n =? 1
        then Returns (Some privkey, None)
        else Panics
    | ethcrypto_CompressPubkey pub =>
        match pub with
        | None => Panics
        | Some p =>
            Returns ((2 + stdecdsa.Y p mod 2) :: S256.to_bytes 32 (stdecdsa.X p))
        end
    end.

End std_vector.

(** * Properties *)

Import k1util.

(** ** Arrays *)

Lemma bytes_eqb_refl (a : bytes) : bytes_eqb a a = true.
Proof.
  induction a as [|x a IH]; simpl; [reflexivity|].
  now rewrite Z.eqb_refl, IH.
Qed.

Lemma bytes_eqb_eq (a b : bytes) : bytes_eqb a b = true <-> a = b.
Proof.
  split; [|intros ->; apply bytes_eqb_refl].
  revert b; induction a as [|x a IH]; intros [|y b]; simpl; try discriminate; auto.
  intros H. apply andb_true_iff in H as [Hx Hab].
  apply Z.eqb_eq in Hx. f_equal; auto.
Qed.

Lemma bytes_eqb_neq (a b : bytes) : a <> b -> bytes_eqb a b = false.
Proof.
  intros H. destruct (bytes_eqb a b) eqn:E; [|reflexivity].
  apply bytes_eqb_eq in E. contradiction.
Qed.

Lemma set_index_length (a : bytes) (i : nat) (v : byte) :
  List.length (set_index a i v) = List.length a.
Proof.
  revert i; induction a as [|x a IH]; intros [|i]; simpl; auto.
Qed.

(** Writing at one index leaves the other indices as they were. *)
Lemma at_index_set_index_other (a : bytes) (i j : nat) (v : byte) :
  i <> j -> at_index (set_index a i v) j = at_index a j.
Proof.
  unfold at_index. revert i j; induction a as [|x a IH]; intros [|i] [|j] H;
    simpl; auto; try congruence.
Qed.

Lemma at_index_app_r (a b : bytes) (i : nat) :
  at_index (a ++ b) (List.length a + i) = at_index b i.
Proof.
  unfold at_index. rewrite app_nth2 by lia. f_equal. lia.
Qed.

(** Writing at the index just past [a] replaces the head of what follows. *)
Lemma set_index_app_r (a : bytes) (x v : byte) (b : bytes) :
  set_index (a ++ x :: b) (List.length a) v = a ++ v :: b.
Proof.
  induction a as [|y a IH]; simpl; [reflexivity|]. now rewrite IH.
Qed.

(** ** Programs *)

Section ProgramFacts.

Context {E : Type -> Type}.

Lemma run_bind (h : Handler E) {A B : Type} (p : Prog E A) (f : A -> Prog E B) :
  run h (bind p f) =
  match run h p with
  | Returns a => run h (f a)
  | Panics => Panics
  end.
Proof.
  induction p as [a| |X e k IH]; simpl; try reflexivity.
  destruct (h X e); [apply IH | reflexivity].
Qed.

(** A program that calls no library runs the same under every handler,
    and leaves no call behind. *)
Lemma pure_calls (h : Handler E) {A : Type} (p : Prog E A) :
  pure p -> calls h p = [].
Proof. destruct p; simpl; intros H; [reflexivity | reflexivity | contradiction]. Qed.

Lemma pure_run (h h' : Handler E) {A : Type} (p : Prog E A) :
  pure p -> run h p = run h' p.
Proof. destruct p; simpl; intros H; [reflexivity | reflexivity | contradiction]. Qed.

End ProgramFacts.

(** ** Verify: the recovery id *)

(** C3.  For every address, digest and 65-byte signature whose byte at
    index 64 is neither 27 nor 28, [Verify] is the program that returns
    [false] with the invalid-recovery-id error at once: under every library
    it returns that pair, it does not panic, and it calls nothing, the
    public-key recovery included. *)
Theorem Verify_invalid_recovery_id (address hash sig : bytes) :
  List.length hash = 32%nat ->
  List.length sig = 65%nat ->
  at_index sig 64 <> 27 ->
  at_index sig 64 <> 28 ->
  Verify address hash sig = Ret (false, Some ErrInvalidRecoveryID) /\
  forall h : Handler K1Call,
    run h (Verify address hash sig) = Returns (false, Some ErrInvalidRecoveryID) /\
    calls h (Verify address hash sig) = [].
Proof.
  intros _ _ H27 H28.
  assert (HV : Verify address hash sig = Ret (false, Some ErrInvalidRecoveryID)).
  { unfold Verify, vIdx.
    apply Z.eqb_neq in H27, H28. now rewrite H27, H28. }
  split; [exact HV|].
  intros h. rewrite HV. split; reflexivity.
Qed.

Lemma Verify_invalid_recovery_id_witness :
  let sig := zero_array 64 ++ [29] in
  Verify vector.address vector.digest sig = Ret (false, Some ErrInvalidRecoveryID) /\
  forall h : Handler K1Call,
    run h (Verify vector.address vector.digest sig)
      = Returns (false, Some ErrInvalidRecoveryID) /\
    calls h (Verify vector.address vector.digest sig) = [].
Proof.
  apply (Verify_invalid_recovery_id vector.address vector.digest (zero_array 64 ++ [29]));
    [reflexivity | reflexivity | discriminate | discriminate].
Defined.

(** ** The compressed-key functions: the length check *)

(** C4, as the code has it.  For every byte slice whose length is not 33,
    [PubKeyToAddress], [PubKeyToCosmos], [PubKeyBytesToCosmos],
    [PBPubKeyFromBytes] and [PubKeyPBToAddress] are the program that
    returns the length-mismatch error with the offending length, calling no
    library.  [CosmosPubkeyToEVMAddress] has no length check of its own:
    whatever the length, its first step is the call of [DecompressPubkey] on
    the input, and when that call reports an error the function returns
    that error as it is, with the zero address. *)
Theorem compressed_key_length_check (b : bytes) (pb : cryptopb.PublicKey) :
  List.length b <> 33%nat ->
  cryptopb.GetSecp256K1 pb = b ->
  let err := Some (ErrInvalidPubkeyLength (List.length b)) in
  PubKeyToAddress {| crypto.PubKey_Bytes := b |} = Ret (zero_array 20, err) /\
  PubKeyToCosmos {| crypto.PubKey_Bytes := b |} = Ret (None, err) /\
  PubKeyBytesToCosmos b = Ret (None, err) /\
  PBPubKeyFromBytes b = Ret ({| cryptopb.Sum := cryptopb.Sum_nil |}, err) /\
  PubKeyPBToAddress pb = Ret (zero_array 20, err) /\
  forall (h : Handler K1Call) p e,
    h _ (ethcrypto_DecompressPubkey b) = Returns (p, Some e) ->
    run h (CosmosPubkeyToEVMAddress b) = Returns (zero_array 20, Some e) /\
    calls h (CosmosPubkeyToEVMAddress b) = [existT _ _ (ethcrypto_DecompressPubkey b)].
Proof.
  intros Hlen Hpb err.
  assert (Hne : negb (Nat.eqb (List.length b) pubkeyCompressedLen) = true).
  { apply negb_true_iff, Nat.eqb_neq. exact Hlen. }
  unfold PubKeyToAddress, PubKeyToCosmos, PubKeyBytesToCosmos, PBPubKeyFromBytes,
    PubKeyPBToAddress; simpl crypto.PubKey_Bytes.
  rewrite Hpb, Hne.
  repeat (split; [reflexivity|]).
  intros h p e Hlib. unfold CosmosPubkeyToEVMAddress.
  cbn [run calls]. rewrite Hlib.
  destruct p; split; reflexivity.
Qed.

Lemma compressed_key_length_check_witness :
  let b : bytes := [2; 121; 190] in
  let err := Some (ErrInvalidPubkeyLength 3) in
  PubKeyToAddress {| crypto.PubKey_Bytes := b |} = Ret (zero_array 20, err) /\
  PubKeyToCosmos {| crypto.PubKey_Bytes := b |} = Ret (None, err) /\
  PubKeyBytesToCosmos b = Ret (None, err) /\
  PBPubKeyFromBytes b = Ret ({| cryptopb.Sum := cryptopb.Sum_nil |}, err) /\
  PubKeyPBToAddress {| cryptopb.Sum := cryptopb.PublicKey_Secp256K1 b |}
    = Ret (zero_array 20, err) /\
  forall (h : Handler K1Call) p e,
    h _ (ethcrypto_DecompressPubkey b) = Returns (p, Some e) ->
    run h (CosmosPubkeyToEVMAddress b) = Returns (zero_array 20, Some e) /\
    calls h (CosmosPubkeyToEVMAddress b) = [existT _ _ (ethcrypto_DecompressPubkey b)].
Proof.
  apply (compressed_key_length_check [2; 121; 190]
           {| cryptopb.Sum := cryptopb.PublicKey_Secp256K1 [2; 121; 190] |});
    [simpl; lia | reflexivity].
Defined.

(** C4 as stated fails on [CosmosPubkeyToEVMAddress]: on the empty slice,
    whose length is not 33, the function is not a program that returns at
    once; it calls [DecompressPubkey] on the slice, and the error it returns
    on the recorded libraries is the library's, not a length-mismatch error
    of the package. *)
Lemma CosmosPubkeyToEVMAddress_not_length_checked :
  List.length (@nil byte) <> 33%nat /\
  ~ pure (CosmosPubkeyToEVMAddress []) /\
  calls vector.replay (CosmosPubkeyToEVMAddress [])
    = [existT _ _ (ethcrypto_DecompressPubkey [])] /\
  run vector.replay (CosmosPubkeyToEVMAddress [])
    = Returns (zero_array 20, Some (Foreign "invalid public key")) /\
  Foreign "invalid public key" <> ErrInvalidPubkeyLength 0.
Proof.
  split; [simpl; lia|].
  split; [intros H; exact H|].
  split; [reflexivity|].
  split; [reflexivity | discriminate].
Qed.

(** ** The textual key: [strings.Replace] and [hex.DecodeString] *)

Local Open Scope string_scope.

(** A leading [0x] is the first occurrence: it is the one removed. *)
Lemma Replace_leading_0x (s : string) :
  strings.Replace ("0x" ++ s) "0x" "" 1 = s.
Proof.
  unfold strings.Replace. simpl. destruct s; reflexivity.
Qed.

Lemma prefix_0x_head (c : ascii) (s : string) :
  prefix "0x" (String c s) = true ->
  c = "0"%char /\ exists s', s = String "x"%char s'.
Proof.
  cbn [prefix]. destruct (ascii_dec "0"%char c) as [<-|]; [|discriminate].
  destruct s as [|d s']; [discriminate|].
  cbn [prefix]. destruct (ascii_dec "x"%char d) as [<-|]; [|discriminate].
  intros _. split; [reflexivity | now exists s'].
Qed.

(** Where the letter x does not occur, nothing is replaced. *)
Lemma Replace_from_x_free (s : string) (n : nat) :
  x_free s -> strings.Replace_from "0x" "" s n 0 = s.
Proof.
  revert n; induction s as [|c s IH]; intros n Hs; [reflexivity|].
  destruct Hs as [Hc Hs].
  destruct n as [|n]; [reflexivity|].
  cbn [strings.Replace_from].
  destruct (prefix "0x" (String c s)) eqn:Hp.
  - apply prefix_0x_head in Hp as [_ [s' ->]].
    destruct Hs as [Hx _]. congruence.
  - now rewrite IH.
Qed.

(** The first occurrence of [0x] is removed wherever it stands: after a
    text [a] without the letter x, the result is [a] followed by the rest. *)
Lemma Replace_first_0x (a b : string) :
  x_free a -> strings.Replace (a ++ "0x" ++ b) "0x" "" 1 = a ++ b.
Proof.
  unfold strings.Replace.
  induction a as [|c a IH]; intros Ha.
  - apply Replace_leading_0x.
  - destruct Ha as [Hc Ha].
    change (String c a ++ "0x" ++ b) with (String c (a ++ "0x" ++ b)).
    cbn [strings.Replace_from].
    destruct (prefix "0x" (String c (a ++ "0x" ++ b))) eqn:Hp.
    + apply prefix_0x_head in Hp as [_ [s' Hs']].
      destruct a as [|d a]; simpl in Hs'.
      * discriminate.
      * injection Hs' as -> _. destruct Ha as [Hx _]. congruence.
    + rewrite (IH Ha). reflexivity.
Qed.

Lemma fromHexChar_x : hex.fromHexChar "x"%char = None.
Proof. reflexivity. Qed.

Lemma x_free_list_string (s : string) :
  x_free_list (list_ascii_of_string s) -> x_free s.
Proof. induction s as [|c s IH]; simpl; intuition. Qed.

(** A text that decodes without an error is made of hexadecimal digits; in
    particular the letter x does not occur in it.  The induction follows
    [hex.Decode], two characters at a time. *)
Lemma Decode_ok_x_free (n : nat) :
  forall (l : list ascii) (out : bytes),
    (List.length l <= n)%nat -> hex.Decode l = (out, None) -> x_free_list l.
Proof.
  induction n as [|n IH]; intros l out Hn Hd.
  - destruct l; [exact I | simpl in Hn; lia].
  - destruct l as [|p [|q rest]]; [exact I | | ].
    + simpl in Hd. destruct (hex.fromHexChar p); discriminate.
    + simpl in Hd.
      destruct (hex.fromHexChar p) eqn:Hp; [|discriminate].
      destruct (hex.fromHexChar q) eqn:Hq; [|discriminate].
      destruct (hex.Decode rest) as [out' err'] eqn:Hr.
      injection Hd as _ ->.
      simpl. repeat split.
      * intros ->. rewrite fromHexChar_x in Hp. discriminate.
      * intros ->. rewrite fromHexChar_x in Hq. discriminate.
      * apply (IH rest out'); [simpl in Hn; lia | exact Hr].
Qed.

Lemma DecodeString_ok_x_free (s : string) (out : bytes) :
  hex.DecodeString s = (out, None) -> x_free s.
Proof.
  intros H. apply x_free_list_string.
  exact (Decode_ok_x_free _ _ out (le_n _) H).
Qed.

(** [decodePubKeyFromHex] on a text that decodes to 33 bytes, with or
    without the prefix. *)
Lemma decodePubKeyFromHex_plain (s : string) (key : bytes) :
  hex.DecodeString s = (key, None) -> List.length key = 33%nat ->
  decodePubKeyFromHex s = (Some {| cosmosk1.Key := key |}, None).
Proof.
  intros Hd Hl. unfold decodePubKeyFromHex, strings.Replace.
  rewrite (Replace_from_x_free s 1 (DecodeString_ok_x_free s key Hd)).
  rewrite Hd, Hl. reflexivity.
Qed.

Lemma decodePubKeyFromHex_prefixed (s : string) :
  decodePubKeyFromHex ("0x" ++ s) =
  match hex.DecodeString s with
  | (_, Some err) => (None, Some (Wrap err "invalid compressed public key"))
  | (cmpPubKey, None) =>
      if negb (Nat.eqb (List.length cmpPubKey) secp256k1.PubKeyBytesLenCompressed)
      then (None, Some (New "invalid compressed public key"
                            [("length", Z.of_nat (List.length cmpPubKey))]))
      else (Some {| cosmosk1.Key := cmpPubKey |}, None)
  end.
Proof.
  unfold decodePubKeyFromHex. now rewrite Replace_leading_0x.
Qed.

(** C7.  For every text that is the hexadecimal encoding of a 33-byte key,
    [CmpPubKeyToDelegatorAddress] is the same program with and without the
    [0x] prefix: the address of the decoded key, formatted as an account
    address.  Under every library the two calls return the same string and
    the same error. *)
Theorem CmpPubKeyToDelegatorAddress_0x_prefix (s : string) (key : bytes) :
  hex.DecodeString s = (key, None) ->
  List.length key = 33%nat ->
  CmpPubKeyToDelegatorAddress ("0x" ++ s) = CmpPubKeyToDelegatorAddress s /\
  CmpPubKeyToDelegatorAddress s =
    (a <- PubKey_Address {| cosmosk1.Key := key |} ;;
     str <- AccAddress_String a ;;
     Ret (str, None)) /\
  forall h : Handler CosmosCall,
    run h (CmpPubKeyToDelegatorAddress ("0x" ++ s)) = run h (CmpPubKeyToDelegatorAddress s).
Proof.
  intros Hd Hl.
  assert (Hplain := decodePubKeyFromHex_plain s key Hd Hl).
  assert (Hpre : decodePubKeyFromHex ("0x" ++ s) = decodePubKeyFromHex s).
  { rewrite decodePubKeyFromHex_prefixed, Hplain, Hd, Hl. reflexivity. }
  assert (Heq : CmpPubKeyToDelegatorAddress ("0x" ++ s) = CmpPubKeyToDelegatorAddress s).
  { unfold CmpPubKeyToDelegatorAddress. now rewrite Hpre. }
  split; [exact Heq|]. split.
  - unfold CmpPubKeyToDelegatorAddress. now rewrite Hplain.
  - intros h. now rewrite Heq.
Qed.

Lemma CmpPubKeyToDelegatorAddress_0x_prefix_witness :
  CmpPubKeyToDelegatorAddress ("0x" ++ vector.pubkey_hex)
    = CmpPubKeyToDelegatorAddress vector.pubkey_hex /\
  CmpPubKeyToDelegatorAddress vector.pubkey_hex =
    (a <- PubKey_Address {| cosmosk1.Key := vector.pubkey_compressed |} ;;
     str <- AccAddress_String a ;;
     Ret (str, None)) /\
  forall h : Handler CosmosCall,
    run h (CmpPubKeyToDelegatorAddress ("0x" ++ vector.pubkey_hex))
      = run h (CmpPubKeyToDelegatorAddress vector.pubkey_hex).
Proof.
  apply (CmpPubKeyToDelegatorAddress_0x_prefix vector.pubkey_hex vector.pubkey_compressed);
    reflexivity.
Defined.

(** C10.  [decodePubKeyFromHex] removes the first occurrence of [0x]
    wherever it stands, not only at the head: after a text [a] without the
    letter x the occurrence is dropped and [a] followed by the rest is what
    gets decoded.  For the text below, in which [0x] first occurs at index
    2 and which does not start with it, the remaining characters decode to
    a 33-byte key, and both address functions accept the input and go on
    to format the key's address. *)
Theorem decodePubKeyFromHex_strips_inner_0x :
  (forall a b : string, x_free a ->
     strings.Replace (a ++ "0x" ++ b) "0x" "" 1 = a ++ b) /\
  exists (s : string) (pk : cosmosk1.PubKey),
    index 0 "0x" s = Some 2%nat /\
    prefix "0x" s = false /\
    strings.Replace s "0x" "" 1 = vector.pubkey_hex /\
    decodePubKeyFromHex s = (Some pk, None) /\
    List.length (cosmosk1.Key pk) = 33%nat /\
    CmpPubKeyToDelegatorAddress s =
      (a <- PubKey_Address pk ;; str <- AccAddress_String a ;; Ret (str, None)) /\
    CmpPubKeyToValidatorAddress s =
      (a <- PubKey_Address pk ;; str <- ValAddress_String a ;; Ret (str, None)).
Proof.
  split; [exact Replace_first_0x|].
  exists ("02" ++ "0x" ++ "79be667ef9dcbbac55a06295ce870b07029bfcdb2dce28d959f2815b16f81798").
  exists {| cosmosk1.Key := vector.pubkey_compressed |}.
  repeat split; reflexivity.
Qed.

Local Close Scope string_scope.

(** ** Sign: the layout of the signature *)

Lemma rsv_length (r s : bytes) (v : byte) :
  List.length r = 32%nat -> List.length s = 32%nat ->
  List.length (r ++ s ++ [v]) = 65%nat.
Proof. intros Hr Hs. rewrite !length_app, Hr, Hs. reflexivity. Qed.

Lemma rsv_at_64 (r s : bytes) (v : byte) :
  List.length r = 32%nat -> List.length s = 32%nat ->
  at_index (r ++ s ++ [v]) 64 = v.
Proof.
  intros Hr Hs. rewrite app_assoc.
  replace 64%nat with (List.length (r ++ s) + 0)%nat
    by (rewrite length_app, Hr, Hs; reflexivity).
  apply at_index_app_r.
Qed.

Lemma rsv_set_64 (r s : bytes) (v v' : byte) :
  List.length r = 32%nat -> List.length s = 32%nat ->
  set_index (r ++ s ++ [v]) 64 v' = r ++ s ++ [v'].
Proof.
  intros Hr Hs. rewrite !app_assoc.
  replace 64%nat with (List.length (r ++ s))
    by (rewrite length_app, Hr, Hs; reflexivity).
  apply set_index_app_r.
Qed.

(** What [Sign] returns when the library answers with a compact signature
    [hdr || R || S]: the same bytes rotated left by one. *)
Lemma Sign_rotates (h : Handler K1Call) (key : crypto.PrivKey) (input : bytes)
    (priv : secp256k1.PrivateKey) (hdr : byte) (r s : bytes) :
  List.length (crypto.Bytes key) = 32%nat ->
  h _ (secp256k1_PrivKeyFromBytes (crypto.Bytes key)) = Returns priv ->
  h _ (ecdsa_SignCompact priv input false) = Returns (hdr :: r ++ s) ->
  List.length r = 32%nat -> List.length s = 32%nat ->
  run h (Sign key input) = Returns (r ++ s ++ [hdr], None).
Proof.
  intros Hk Hpriv Hsig Hr Hs. unfold Sign, privKeyLen.
  rewrite Hk. cbn [Nat.eqb negb run]. rewrite Hpriv. cbn [run].
  rewrite Hsig. cbn [run].
  unfold cast.Array65. rewrite <- app_assoc, (rsv_length r s hdr Hr Hs).
  reflexivity.
Qed.

(** C2.  For a private key of 32 bytes and a 32-byte digest, when the
    library's compact signature is the recovery byte [27 + recid], with
    [recid] 0 or 1, followed by the 32 bytes of R and the 32 bytes of S,
    [Sign] returns with no error the 65 bytes [R || S || V]: R at 0..31, S
    at 32..63 and V, 27 or 28, at 64.  It is the compact signature rotated
    left by one: the byte at [i + 1] moved to [i], the recovery byte moved
    from 0 to 64. *)
Theorem Sign_RSV_layout (h : Handler K1Call) (key : crypto.PrivKey) (input : bytes)
    (priv : secp256k1.PrivateKey) (recid : Z) (r s : bytes) :
  List.length (crypto.Bytes key) = 32%nat ->
  List.length input = 32%nat ->
  h _ (secp256k1_PrivKeyFromBytes (crypto.Bytes key)) = Returns priv ->
  h _ (ecdsa_SignCompact priv input false) = Returns ((27 + recid) :: r ++ s) ->
  List.length r = 32%nat ->
  List.length s = 32%nat ->
  recid = 0 \/ recid = 1 ->
  exists sig : bytes,
    run h (Sign key input) = Returns (sig, None) /\
    List.length sig = 65%nat /\
    sig = r ++ s ++ [at_index sig 64] /\
    (at_index sig 64 = 27 \/ at_index sig 64 = 28) /\
    at_index sig 64 = at_index ((27 + recid) :: r ++ s) 0 /\
    forall i : nat, (i < 64)%nat ->
      at_index sig i = at_index ((27 + recid) :: r ++ s) (S i).
Proof.
  intros Hk _ Hpriv Hsig Hr Hs Hrec.
  exists (r ++ s ++ [27 + recid]).
  rewrite (rsv_at_64 r s _ Hr Hs).
  split; [exact (Sign_rotates h key input priv _ r s Hk Hpriv Hsig Hr Hs)|].
  split; [exact (rsv_length r s _ Hr Hs)|].
  split; [reflexivity|].
  split; [destruct Hrec as [-> | ->]; [left | right]; reflexivity|].
  split; [reflexivity|].
  intros i Hi. unfold at_index. cbn [nth].
  rewrite app_assoc, app_nth1 by (rewrite length_app, Hr, Hs; exact Hi).
  reflexivity.
Qed.

Lemma Sign_RSV_layout_witness :
  exists sig : bytes,
    run vector.replay (Sign vector.key vector.digest) = Returns (sig, None) /\
    List.length sig = 65%nat /\
    sig = vector.sig_r ++ vector.sig_s ++ [at_index sig 64] /\
    (at_index sig 64 = 27 \/ at_index sig 64 = 28) /\
    at_index sig 64 = at_index ((27 + vector.recid) :: vector.sig_r ++ vector.sig_s) 0 /\
    forall i : nat, (i < 64)%nat ->
      at_index sig i = at_index ((27 + vector.recid) :: vector.sig_r ++ vector.sig_s) (S i).
Proof.
  apply (Sign_RSV_layout vector.replay vector.key vector.digest
           {| secp256k1.Key := 1 |} vector.recid vector.sig_r vector.sig_s);
    first [reflexivity | right; reflexivity].
Defined.



(** ** Verify: recovery and comparison *)

(** [Verify] on a signature whose V is 27 or 28: the recovery is asked on
    the signature with V lowered by 27, and its answer decides. *)
Lemma Verify_valid_V (h : Handler K1Call) (address hash sig : bytes) :
  at_index sig 64 = 27 \/ at_index sig 64 = 28 ->
  run h (Verify address hash sig) =
  match h _ (ethcrypto_SigToPub hash (set_index sig 64 (at_index sig 64 - 27))) with
  | Returns (_, Some err) => Returns (false, Some (Wrap err "recover public key"))
  | Returns (None, None) => Panics
  | Returns (Some pubkey, None) =>
      match h _ (ethcrypto_PubkeyToAddress pubkey) with
      | Returns actual => Returns (bytes_eqb actual address, None)
      | Panics => Panics
      end
  | Panics => Panics
  end.
Proof.
  intros HV. unfold Verify, vIdx.
  assert (Hmod : (at_index sig 64 - 27) mod 256 = at_index sig 64 - 27)
    by (destruct HV as [-> | ->]; reflexivity).
  assert (Hif : negb (at_index sig 64 =? 27) && negb (at_index sig 64 =? 28) = false)
    by (destruct HV as [-> | ->]; reflexivity).
  rewrite Hif, Hmod. cbn [run].
  destruct (h _ (ethcrypto_SigToPub hash _)) as [[[pk|] [e|]]|]; reflexivity.
Qed.

(** C1.  For a 32-byte private key and a 32-byte digest, when the library
    signs with a compact signature [27 + recid || R || S], [recid] 0 or 1,
    and recovers from [R || S || recid] the key that the decompression of
    the signer's public key gives, then [Sign] returns a signature with no
    error, [PubKeyToAddress] returns the address of the signer's public key
    with no error, and [Verify] on that address, the digest and the
    signature returns [true] with no error. *)
Theorem Sign_then_Verify (h : Handler K1Call) (key : crypto.PrivKey) (digest : bytes)
    (priv : secp256k1.PrivateKey) (recid : Z) (r s : bytes)
    (pk : stdecdsa.PublicKey) (addr : bytes) :
  List.length (crypto.Bytes key) = 32%nat ->
  List.length digest = 32%nat ->
  List.length (crypto.PubKey_Bytes (crypto.PubKey_of key)) = 33%nat ->
  h _ (secp256k1_PrivKeyFromBytes (crypto.Bytes key)) = Returns priv ->
  h _ (ecdsa_SignCompact priv digest false) = Returns ((27 + recid) :: r ++ s) ->
  List.length r = 32%nat ->
  List.length s = 32%nat ->
  recid = 0 \/ recid = 1 ->
  h _ (ethcrypto_SigToPub digest (r ++ s ++ [recid])) = Returns (Some pk, None) ->
  h _ (ethcrypto_DecompressPubkey (crypto.PubKey_Bytes (crypto.PubKey_of key)))
    = Returns (Some pk, None) ->
  h _ (ethcrypto_PubkeyToAddress pk) = Returns addr ->
  exists sig : bytes,
    run h (Sign key digest) = Returns (sig, None) /\
    run h (PubKeyToAddress (crypto.PubKey_of key)) = Returns (addr, None) /\
    run h (Verify addr digest sig) = Returns (true, None).
Proof.
  intros Hk _ Hpub Hpriv Hsig Hr Hs Hrec Hrecover Hdec Haddr.
  exists (r ++ s ++ [27 + recid]).
  split; [exact (Sign_rotates h key digest priv _ r s Hk Hpriv Hsig Hr Hs)|].
  split.
  - unfold PubKeyToAddress, pubkeyCompressedLen. rewrite Hpub.
    cbn [Nat.eqb negb run]. rewrite Hdec. cbn [run]. rewrite Haddr. reflexivity.
  - rewrite Verify_valid_V
      by (rewrite (rsv_at_64 r s _ Hr Hs); destruct Hrec as [-> | ->]; auto).
    rewrite (rsv_at_64 r s _ Hr Hs), (rsv_set_64 r s _ _ Hr Hs).
    replace (27 + recid - 27) with recid by lia.
    rewrite Hrecover, Haddr, bytes_eqb_refl. reflexivity.
Qed.

Lemma Sign_then_Verify_witness :
  exists sig : bytes,
    run vector.replay (Sign vector.key vector.digest) = Returns (sig, None) /\
    run vector.replay (PubKeyToAddress (crypto.PubKey_of vector.key))
      = Returns (vector.address, None) /\
    run vector.replay (Verify vector.address vector.digest sig) = Returns (true, None).
Proof.
  apply (Sign_then_Verify vector.replay vector.key vector.digest
           {| secp256k1.Key := 1 |} vector.recid vector.sig_r vector.sig_s
           vector.pubkey vector.address);
    first [reflexivity | right; reflexivity].
Defined.

(** C8, as the code has it.  Changing a byte of R or S (an index below 64)
    in a 65-byte signature whose V is 27 or 28 leaves V as it was, so
    [Verify] asks the library for the recovery on the changed signature,
    and the answer decides: when the recovery fails, [Verify] returns
    [false] with the wrapped error (never [false] with a nil error); when
    it yields a key, [Verify] returns with a nil error whether the key's
    address is the expected one, which is [false] when it differs. *)
Theorem Verify_changed_signature (h : Handler K1Call) (address hash sig : bytes)
    (i : nat) (b : byte) :
  List.length sig = 65%nat ->
  at_index sig 64 = 27 \/ at_index sig 64 = 28 ->
  (i < 64)%nat ->
  let sig' := set_index sig i b in
  let recover := ethcrypto_SigToPub hash (set_index sig' 64 (at_index sig 64 - 27)) in
  at_index sig' 64 = at_index sig 64 /\
  (forall p e,
     h _ recover = Returns (p, Some e) ->
     run h (Verify address hash sig')
       = Returns (false, Some (Wrap e "recover public key"))) /\
  (forall pubkey actual,
     h _ recover = Returns (Some pubkey, None) ->
     h _ (ethcrypto_PubkeyToAddress pubkey) = Returns actual ->
     run h (Verify address hash sig') = Returns (bytes_eqb actual address, None) /\
     (actual <> address -> run h (Verify address hash sig') = Returns (false, None))).
Proof.
  intros _ HV Hi sig' recover.
  assert (HV' : at_index sig' 64 = at_index sig 64)
    by (apply at_index_set_index_other; lia).
  split; [exact HV'|].
  assert (Hrun := Verify_valid_V h address hash sig').
  rewrite HV' in Hrun. specialize (Hrun HV). fold recover in Hrun.
  split.
  - intros p e Hlib. rewrite Hrun, Hlib. destruct p; reflexivity.
  - intros pubkey actual Hlib Haddr. rewrite Hrun, Hlib, Haddr.
    split; [reflexivity|].
    intros Hne. now rewrite (bytes_eqb_neq _ _ Hne).
Qed.

Lemma Verify_changed_signature_witness :
  run vector.replay (Verify vector.address vector.digest vector.tampered_r)
    = Returns (false, Some (Wrap (Foreign "recovery failed") "recover public key")) /\
  run vector.replay (Verify vector.address vector.digest vector.tampered_r')
    = Returns (false, None).
Proof.
  split.
  - apply (proj1 (proj2 (Verify_changed_signature vector.replay vector.address
                           vector.digest vector.signature 0 148
                           eq_refl (or_intror eq_refl) (Nat.lt_0_succ 63)))
             None (Foreign "recovery failed")).
    reflexivity.
  - apply (proj2 (proj2 (Verify_changed_signature vector.replay vector.address
                           vector.digest vector.signature 2 31
                           eq_refl (or_intror eq_refl)
                           (proj1 (Nat.ltb_lt 2 64) eq_refl)))
             vector.pubkey' vector.address'); [reflexivity | reflexivity | discriminate].
Defined.

(** The recorded answers of the recovery agree with the curve: the R of the
    recorded signature is the abscissa of a point, the R with its first
    byte raised by one is not, and the two recorded keys are points of the
    curve. *)
Lemma recorded_R_abscissa :
  S256.is_abscissa (S256.from_bytes (firstn 32 vector.signature)) = true /\
  S256.is_abscissa (S256.from_bytes (firstn 32 vector.tampered_r)) = false /\
  S256.IsOnCurve (stdecdsa.X vector.pubkey) (stdecdsa.Y vector.pubkey) = true /\
  S256.IsOnCurve (stdecdsa.X vector.pubkey') (stdecdsa.Y vector.pubkey') = true.
Proof.
  split; [|split; [|split]]; vm_compute; reflexivity.
Qed.

(** C8 as stated fails: on the recorded signature, which [Sign] returns
    for the recorded key and digest and which [Verify] accepts for the
    signer's address, raising the first byte of R by one gives an R that is
    the abscissa of no point of the curve; the recovery fails, and [Verify]
    returns the error, not [false] with a nil error. *)
Lemma Verify_changed_R_returns_error :
  run vector.replay (Sign vector.key vector.digest) = Returns (vector.signature, None) /\
  run vector.replay (Verify vector.address vector.digest vector.signature)
    = Returns (true, None) /\
  (0 < 64)%nat /\
  at_index vector.signature 0 <> 148 /\
  run vector.replay
      (Verify vector.address vector.digest (set_index vector.signature 0 148))
    = Returns (false, Some (Wrap (Foreign "recovery failed") "recover public key")) /\
  run vector.replay
      (Verify vector.address vector.digest (set_index vector.signature 0 148))
    <> Returns (false, None).
Proof.
  split; [reflexivity|]. split; [reflexivity|].
  split; [lia|]. split; [discriminate|].
  split; [reflexivity | discriminate].
Qed.

(** ** The 64-byte form of a public key *)

(** [PubKeyToBytes64] drops the first byte of what the library marshals. *)
Lemma PubKeyToBytes64_run (h : Handler K1Call) (pub : option stdecdsa.PublicKey)
    (x : byte) (xy : bytes) :
  h _ (ethcrypto_FromECDSAPub pub) = Returns (x :: xy) ->
  run h (PubKeyToBytes64 pub) = Returns xy.
Proof. intros Hm. unfold PubKeyToBytes64. cbn [run]. now rewrite Hm. Qed.

(** [PubKeyFromBytes64] on 64 bytes returns what the library unmarshals
    from the bytes behind the prefix, when it reports no error. *)
Lemma PubKeyFromBytes64_run (h : Handler K1Call) (xy : bytes)
    (resp : option stdecdsa.PublicKey) :
  List.length xy = 64%nat ->
  h _ (ethcrypto_UnmarshalPubkey (prefix04 :: xy)) = Returns (resp, None) ->
  run h (PubKeyFromBytes64 xy) = Returns (resp, None).
Proof.
  intros Hl Hu. unfold PubKeyFromBytes64, pubkeyUncompressedLen. rewrite Hl.
  cbn [Nat.sub Nat.eqb negb run app]. now rewrite Hu.
Qed.

(** C5.  For a public key that the library marshals as [0x04 || X || Y],
    65 bytes, and unmarshals back from that encoding, [PubKeyToBytes64]
    returns the 64 bytes after the prefix and [PubKeyFromBytes64] on them
    returns the key with no error. *)
Theorem PubKeyFromBytes64_PubKeyToBytes64 (h : Handler K1Call)
    (pk : stdecdsa.PublicKey) (xy : bytes) :
  h _ (ethcrypto_FromECDSAPub (Some pk)) = Returns (prefix04 :: xy) ->
  List.length xy = 64%nat ->
  h _ (ethcrypto_UnmarshalPubkey (prefix04 :: xy)) = Returns (Some pk, None) ->
  run h (PubKeyToBytes64 (Some pk)) = Returns xy /\
  run h (PubKeyFromBytes64 xy) = Returns (Some pk, None) /\
  run h (bind (PubKeyToBytes64 (Some pk)) PubKeyFromBytes64) = Returns (Some pk, None).
Proof.
  intros Hm Hl Hu.
  assert (H1 := PubKeyToBytes64_run h (Some pk) _ xy Hm).
  assert (H2 := PubKeyFromBytes64_run h xy (Some pk) Hl Hu).
  split; [exact H1|]. split; [exact H2|].
  rewrite run_bind, H1. exact H2.
Qed.

Lemma PubKeyFromBytes64_PubKeyToBytes64_witness :
  let xy := S256.to_bytes 32 (stdecdsa.X vector.pubkey)
            ++ S256.to_bytes 32 (stdecdsa.Y vector.pubkey) in
  run vector.replay (PubKeyToBytes64 (Some vector.pubkey)) = Returns xy /\
  run vector.replay (PubKeyFromBytes64 xy) = Returns (Some vector.pubkey, None) /\
  run vector.replay (bind (PubKeyToBytes64 (Some vector.pubkey)) PubKeyFromBytes64)
    = Returns (Some vector.pubkey, None).
Proof.
  apply (PubKeyFromBytes64_PubKeyToBytes64 vector.replay vector.pubkey); reflexivity.
Defined.

(** C6.  For 64 bytes whose two halves are not the coordinates of a point
    of the curve, when the library reports such an encoding by an error,
    [PubKeyFromBytes64] returns: it returns no key and the library's error
    wrapped as the failure to unmarshal.  It does not panic. *)
Theorem PubKeyFromBytes64_off_curve (h : Handler K1Call) (pubkey : bytes) :
  List.length pubkey = 64%nat ->
  S256.IsOnCurve (S256.from_bytes (firstn 32 pubkey))
                 (S256.from_bytes (skipn 32 pubkey)) = false ->
  (S256.Unmarshal (prefix04 :: pubkey) = None ->
   exists p e, h _ (ethcrypto_UnmarshalPubkey (prefix04 :: pubkey)) = Returns (p, Some e)) ->
  exists e : error,
    run h (PubKeyFromBytes64 pubkey) = Returns (None, Some (Wrap e "unmarshal pubkey")).
Proof.
  intros Hl Hoff Hlib.
  destruct Hlib as [p [e He]].
  { unfold S256.Unmarshal, prefix04. rewrite Hl, Hoff. reflexivity. }
  exists e. unfold PubKeyFromBytes64, pubkeyUncompressedLen. rewrite Hl.
  cbn [Nat.sub Nat.eqb negb run app]. rewrite He. destruct p; reflexivity.
Qed.

Lemma PubKeyFromBytes64_off_curve_witness :
  exists e : error,
    run vector.replay (PubKeyFromBytes64 (zero_array 64))
      = Returns (None, Some (Wrap e "unmarshal pubkey")).
Proof.
  apply (PubKeyFromBytes64_off_curve vector.replay (zero_array 64));
    [reflexivity | reflexivity |].
  intros _. exists None, (Foreign "invalid secp256k1 public key"). reflexivity.
Defined.

(** ** The encodings of a point *)

Lemma from_bytes_snoc (l : bytes) (x : byte) :
  S256.from_bytes (l ++ [x]) = S256.from_bytes l * 256 + x.
Proof. unfold S256.from_bytes. now rewrite fold_left_app. Qed.

Lemma to_bytes_length (n : nat) (z : Z) : List.length (S256.to_bytes n z) = n.
Proof.
  revert z; induction n as [|n IH]; intros z; simpl; [reflexivity|].
  rewrite length_app, IH. simpl. lia.
Qed.

Lemma from_bytes_to_bytes (n : nat) (z : Z) :
  S256.from_bytes (S256.to_bytes n z) = z mod 256 ^ Z.of_nat n.
Proof.
  revert z; induction n as [|n IH]; intros z.
  - simpl. now rewrite Z.mod_1_r.
  - cbn [S256.to_bytes]. rewrite from_bytes_snoc, IH.
    rewrite Nat2Z.inj_succ, Z.pow_succ_r by lia.
    rewrite Z.rem_mul_r by lia. lia.
Qed.

(** The computed encodings are inverse on the points of the curve. *)
Lemma Unmarshal_Marshal (pk : stdecdsa.PublicKey) :
  S256.IsOnCurve (stdecdsa.X pk) (stdecdsa.Y pk) = true ->
  S256.Unmarshal (S256.Marshal pk) = Some pk.
Proof.
  intros Hon. destruct pk as [x y]; cbn [stdecdsa.X stdecdsa.Y] in Hon.
  assert (Hrange : 0 <= x < S256.P /\ 0 <= y < S256.P).
  { unfold S256.IsOnCurve in Hon.
    repeat (apply andb_true_iff in Hon as [Hon ?]).
    repeat match goal with
           | H : (_ <=? _) = true |- _ => apply Z.leb_le in H
           | H : (_ <? _) = true |- _ => apply Z.ltb_lt in H
           end.
    apply Z.leb_le in Hon. lia. }
  assert (HP : S256.P < 256 ^ Z.of_nat 32) by (vm_compute; reflexivity).
  unfold S256.Unmarshal, S256.Marshal; cbn [stdecdsa.X stdecdsa.Y].
  generalize (to_bytes_length 32 x) (to_bytes_length 32 y)
             (from_bytes_to_bytes 32 x) (from_bytes_to_bytes 32 y).
  generalize (S256.to_bytes 32 x) (S256.to_bytes 32 y).
  intros bx by' Hbx Hby Hfx Hfy.
  rewrite length_app, Hbx, Hby.
  rewrite firstn_app, skipn_app, Hbx.
  rewrite firstn_all2, skipn_all2 by lia.
  replace (32 - 32)%nat with 0%nat by reflexivity.
  rewrite firstn_0, skipn_O, app_nil_r. cbn [app].
  rewrite Hfx, Hfy, !Z.mod_small by lia.
  cbn [Nat.add Nat.eqb andb]. rewrite Hon. reflexivity.
Qed.

(** Under the computed encodings every point of the curve makes the round
    trip through the 64-byte form. *)
Lemma roundtrip64_on_curve (pk : stdecdsa.PublicKey) :
  S256.IsOnCurve (stdecdsa.X pk) (stdecdsa.Y pk) = true ->
  run vector.replay (bind (PubKeyToBytes64 (Some pk)) PubKeyFromBytes64)
    = Returns (Some pk, None).
Proof.
  intros Hon.
  assert (Hl : List.length (S256.to_bytes 32 (stdecdsa.X pk)
                            ++ S256.to_bytes 32 (stdecdsa.Y pk)) = 64%nat)
    by (rewrite length_app, !to_bytes_length; reflexivity).
  assert (Hu : vector.replay _ (ethcrypto_UnmarshalPubkey (S256.Marshal pk))
               = Returns (Some pk, None)).
  { cbn [vector.replay]. now rewrite (Unmarshal_Marshal pk Hon). }
  rewrite run_bind.
  rewrite (PubKeyToBytes64_run vector.replay (Some pk) 4 _ eq_refl).
  exact (PubKeyFromBytes64_run vector.replay _ (Some pk) Hl Hu).
Qed.

(** * Further properties of the package *)

(** ** Sign: what it returns and when it panics *)

Lemma snoc_at_length (a : bytes) (x : byte) :
  at_index (a ++ [x]) (List.length a) = x.
Proof.
  replace (List.length a) with (List.length a + 0)%nat by lia.
  apply at_index_app_r.
Qed.

Lemma Array65_inv (slice sig : bytes) (err : option error) :
  cast.Array65 slice = (sig, err) ->
  List.length sig = 65%nat /\
  match err with
  | None => sig = slice
  | Some e =>
      sig = zero_array 65 /\ List.length slice <> 65%nat /\
      e = New "slice length not 65" [("len"%string, Z.of_nat (List.length slice))]
  end.
Proof.
  unfold cast.Array65.
  destruct (Nat.eqb (List.length slice) 65) eqn:E; intros H; injection H as <- <-.
  - apply Nat.eqb_eq in E. auto.
  - apply Nat.eqb_neq in E. repeat split; auto.
Qed.

(** X1.  Whenever [Sign] returns, the array has 65 bytes.  With a nil error the
    key had 32 bytes and the array is the library's compact signature, 65
    bytes, with its first byte moved to the end.  With an error the array
    is all zeros, and the error is the invalid key length, for a key of
    another length than 32, or the length mismatch of a compact signature
    that has not 65 bytes: no part of such a signature is returned. *)
Theorem Sign_returns (h : Handler K1Call) (key : crypto.PrivKey) (input sig : bytes)
    (err : option error) :
  run h (Sign key input) = Returns (sig, err) ->
  List.length sig = 65%nat /\
  match err with
  | None =>
      List.length (crypto.Bytes key) = 32%nat /\
      exists priv : secp256k1.PrivateKey,
        h _ (secp256k1_PrivKeyFromBytes (crypto.Bytes key)) = Returns priv /\
        h _ (ecdsa_SignCompact priv input false)
          = Returns (at_index sig 64 :: firstn 64 sig)
  | Some e =>
      sig = zero_array 65 /\
      (e = ErrInvalidPrivKeyLength /\ List.length (crypto.Bytes key) <> 32%nat \/
       exists n : nat,
         n <> 65%nat /\ e = New "slice length not 65" [("len"%string, Z.of_nat n)])
  end.
Proof.
  unfold Sign, privKeyLen.
  destruct (Nat.eqb (List.length (crypto.Bytes key)) 32) eqn:Hk; cbn [negb run].
  - apply Nat.eqb_eq in Hk.
    destruct (h _ (secp256k1_PrivKeyFromBytes (crypto.Bytes key))) as [priv|] eqn:Hp;
      [|discriminate].
    destruct (h _ (ecdsa_SignCompact priv input false)) as [[|sig0 sig1]|] eqn:Hs;
      cbn [run]; try discriminate.
    intros H. injection H as H.
    destruct (Array65_inv _ _ _ H) as [Hlen Hr]. split; [exact Hlen|].
    destruct err as [e|].
    + destruct Hr as [-> [Hne ->]]. split; [reflexivity|].
      right. eexists. split; [exact Hne | reflexivity].
    + subst sig. split; [exact Hk|]. exists priv. split; [reflexivity|].
      assert (H1 : List.length sig1 = 64%nat)
        by (rewrite length_app in Hlen; simpl in Hlen; lia).
      rewrite <- H1 at 1. rewrite snoc_at_length.
      rewrite <- H1, firstn_app, firstn_all, Nat.sub_diag. cbn [firstn].
      now rewrite app_nil_r.
  - apply Nat.eqb_neq in Hk. intros H. injection H as <- <-.
    split; [reflexivity|]. split; [reflexivity|]. left. auto.
Qed.

Lemma Sign_returns_witness :
  List.length vector.signature = 65%nat /\
  List.length (crypto.Bytes vector.key) = 32%nat /\
  exists priv : secp256k1.PrivateKey,
    vector.replay _ (secp256k1_PrivKeyFromBytes (crypto.Bytes vector.key)) = Returns priv /\
    vector.replay _ (ecdsa_SignCompact priv vector.digest false)
      = Returns (at_index vector.signature 64 :: firstn 64 vector.signature).
Proof.
  exact (Sign_returns vector.replay vector.key vector.digest vector.signature None eq_refl).
Defined.


(** ** Verify: what its results mean *)

Lemma V_cases (v : Z) : (v = 27 \/ v = 28) \/ (v <> 27 /\ v <> 28).
Proof. lia. Qed.

Lemma Verify_invalid_V (address hash sig : bytes) :
  at_index sig 64 <> 27 -> at_index sig 64 <> 28 ->
  Verify address hash sig = Ret (false, Some ErrInvalidRecoveryID).
Proof.
  intros H27 H28. unfold Verify, vIdx.
  apply Z.eqb_neq in H27, H28. now rewrite H27, H28.
Qed.

(** X3.  [Verify] returns [true] only on an exact match: the error is nil, V
    is 27 or 28, the library recovered a key from the signature with V
    lowered by 27, and the address of that key is the expected one. *)
Theorem Verify_true (h : Handler K1Call) (address hash sig : bytes)
    (err : option error) :
  run h (Verify address hash sig) = Returns (true, err) ->
  err = None /\
  (at_index sig 64 = 27 \/ at_index sig 64 = 28) /\
  exists pubkey : stdecdsa.PublicKey,
    h _ (ethcrypto_SigToPub hash (set_index sig 64 (at_index sig 64 - 27)))
      = Returns (Some pubkey, None) /\
    h _ (ethcrypto_PubkeyToAddress pubkey) = Returns address.
Proof.
  destruct (V_cases (at_index sig 64)) as [HV | [H27 H28]].
  - rewrite (Verify_valid_V h address hash sig HV).
    destruct (h _ (ethcrypto_SigToPub hash _)) as [[[pk|] [e|]]|] eqn:Hr;
      try discriminate.
    destruct (h _ (ethcrypto_PubkeyToAddress pk)) as [actual|] eqn:Ha;
      [|discriminate].
    intros H. injection H as H <-.
    apply bytes_eqb_eq in H. subst actual.
    split; [reflexivity|]. split; [exact HV|]. exists pk. auto.
  - rewrite (Verify_invalid_V address hash sig H27 H28). discriminate.
Qed.

Lemma Verify_true_witness :
  @None error = None /\
  (at_index vector.signature 64 = 27 \/ at_index vector.signature 64 = 28) /\
  exists pubkey : stdecdsa.PublicKey,
    vector.replay _ (ethcrypto_SigToPub vector.digest
                       (set_index vector.signature 64 (at_index vector.signature 64 - 27)))
      = Returns (Some pubkey, None) /\
    vector.replay _ (ethcrypto_PubkeyToAddress pubkey) = Returns vector.address.
Proof.
  exact (Verify_true vector.replay vector.address vector.digest vector.signature
           None eq_refl).
Defined.

(** X4.  Whenever [Verify] returns an error the boolean is [false], and the
    error is one of two: the invalid recovery id, when V is neither 27 nor
    28, or the library's recovery error wrapped, when V is valid and the
    recovery failed. *)
Theorem Verify_error (h : Handler K1Call) (address hash sig : bytes)
    (b : bool) (e : error) :
  run h (Verify address hash sig) = Returns (b, Some e) ->
  b = false /\
  (e = ErrInvalidRecoveryID /\ at_index sig 64 <> 27 /\ at_index sig 64 <> 28 \/
   (at_index sig 64 = 27 \/ at_index sig 64 = 28) /\
   exists (p : option stdecdsa.PublicKey) (cause : error),
     h _ (ethcrypto_SigToPub hash (set_index sig 64 (at_index sig 64 - 27)))
       = Returns (p, Some cause) /\
     e = Wrap cause "recover public key").
Proof.
  destruct (V_cases (at_index sig 64)) as [HV | [H27 H28]].
  - rewrite (Verify_valid_V h address hash sig HV).
    destruct (h _ (ethcrypto_SigToPub hash _)) as [[[pk|] [c|]]|] eqn:Hr;
      try discriminate.
    + intros H. injection H as <- <-. split; [reflexivity|]. right.
      split; [exact HV|]. exists (Some pk), c. auto.
    + destruct (h _ (ethcrypto_PubkeyToAddress pk)); discriminate.
    + intros H. injection H as <- <-. split; [reflexivity|]. right.
      split; [exact HV|]. exists None, c. auto.
  - rewrite (Verify_invalid_V address hash sig H27 H28).
    intros H. injection H as <- <-. split; [reflexivity|]. left. auto.
Qed.

Lemma Verify_error_witness :
  false = false /\
  (Wrap (Foreign "recovery failed") "recover public key" = ErrInvalidRecoveryID /\
   at_index vector.tampered_r 64 <> 27 /\ at_index vector.tampered_r 64 <> 28 \/
   (at_index vector.tampered_r 64 = 27 \/ at_index vector.tampered_r 64 = 28) /\
   exists (p : option stdecdsa.PublicKey) (cause : error),
     vector.replay _ (ethcrypto_SigToPub vector.digest
                        (set_index vector.tampered_r 64 (at_index vector.tampered_r 64 - 27)))
       = Returns (p, Some cause) /\
     Wrap (Foreign "recovery failed") "recover public key"
       = Wrap cause "recover public key").
Proof.
  exact (Verify_error vector.replay vector.address vector.digest vector.tampered_r
           false _ eq_refl).
Defined.

(** X5.  [Verify] panics only through the library: V is valid, and the library
    panics in the recovery or in the hashing of the recovered key, or
    breaks Go's convention by answering a nil key with a nil error. *)
Theorem Verify_panics_iff (h : Handler K1Call) (address hash sig : bytes) :
  run h (Verify address hash sig) = Panics <->
  (at_index sig 64 = 27 \/ at_index sig 64 = 28) /\
  let recover :=
    h _ (ethcrypto_SigToPub hash (set_index sig 64 (at_index sig 64 - 27))) in
  (recover = Panics \/
   recover = Returns (None, None) \/
   exists pubkey : stdecdsa.PublicKey,
     recover = Returns (Some pubkey, None) /\
     h _ (ethcrypto_PubkeyToAddress pubkey) = Panics).
Proof.
  destruct (V_cases (at_index sig 64)) as [HV | [H27 H28]].
  - rewrite (Verify_valid_V h address hash sig HV). cbv zeta.
    destruct (h _ (ethcrypto_SigToPub hash _)) as [[[pk|] [c|]]|] eqn:Hr.
    + split; [discriminate|].
      intros [_ [H | [H | [pk' [H _]]]]]; discriminate.
    + destruct (h _ (ethcrypto_PubkeyToAddress pk)) as [a|] eqn:Ha; split.
      * discriminate.
      * intros [_ [H | [H | [pk' [H H']]]]]; try discriminate.
        injection H as <-. rewrite Ha in H'. discriminate.
      * intros _. split; [exact HV|]. right. right. exists pk. auto.
      * reflexivity.
    + split; [discriminate|].
      intros [_ [H | [H | [pk' [H _]]]]]; discriminate.
    + split; [|reflexivity]. intros _. split; [exact HV|]. auto.
    + split; [|reflexivity]. intros _. split; [exact HV|]. auto.
  - rewrite (Verify_invalid_V address hash sig H27 H28). cbn [run].
    split; [discriminate|]. intros [[H | H] _]; contradiction.
Qed.

(** ** The address of a compressed key *)

(** X7.  Whenever [PubKeyToAddress] returns: with a nil error the key had 33
    bytes, the library decompressed it, and the address is the library's
    address of the decompressed key; with an error the address is the zero
    address, and the error is the length mismatch, for a key of another
    length than 33, or the library's decompression error wrapped. *)
Theorem PubKeyToAddress_returns (h : Handler K1Call) (pubkey : crypto.PubKey)
    (addr : bytes) (err : option error) :
  run h (PubKeyToAddress pubkey) = Returns (addr, err) ->
  let b := crypto.PubKey_Bytes pubkey in
  match err with
  | None =>
      List.length b = 33%nat /\
      exists ethPubKey : stdecdsa.PublicKey,
        h _ (ethcrypto_DecompressPubkey b) = Returns (Some ethPubKey, None) /\
        h _ (ethcrypto_PubkeyToAddress ethPubKey) = Returns addr
  | Some e =>
      addr = zero_array 20 /\
      (e = ErrInvalidPubkeyLength (List.length b) /\ List.length b <> 33%nat \/
       List.length b = 33%nat /\
       exists (p : option stdecdsa.PublicKey) (cause : error),
         h _ (ethcrypto_DecompressPubkey b) = Returns (p, Some cause) /\
         e = Wrap cause "decompress pubkey")
  end.
Proof.
  unfold PubKeyToAddress, pubkeyCompressedLen. cbv zeta.
  destruct (Nat.eqb (List.length (crypto.PubKey_Bytes pubkey)) 33) eqn:Hl;
    cbn [negb run].
  - apply Nat.eqb_eq in Hl.
    destruct (h _ (ethcrypto_DecompressPubkey _)) as [[[pk|] [c|]]|] eqn:Hd;
      cbn [run]; try discriminate.
    + intros H. injection H as <- <-. split; [reflexivity|]. right.
      split; [exact Hl|]. exists (Some pk), c. auto.
    + destruct (h _ (ethcrypto_PubkeyToAddress pk)) as [a|] eqn:Ha; [|discriminate].
      intros H. injection H as <- <-. split; [exact Hl|]. exists pk. auto.
    + intros H. injection H as <- <-. split; [reflexivity|]. right.
      split; [exact Hl|]. exists None, c. auto.
  - apply Nat.eqb_neq in Hl. intros H. injection H as <- <-.
    split; [reflexivity|]. left. auto.
Qed.

Lemma PubKeyToAddress_returns_witness :
  List.length vector.pubkey_compressed = 33%nat /\
  exists ethPubKey : stdecdsa.PublicKey,
    vector.replay _ (ethcrypto_DecompressPubkey vector.pubkey_compressed)
      = Returns (Some ethPubKey, None) /\
    vector.replay _ (ethcrypto_PubkeyToAddress ethPubKey) = Returns vector.address.
Proof.
  exact (PubKeyToAddress_returns vector.replay (crypto.PubKey_of vector.key)
           vector.address None eq_refl).
Defined.

(** X8.  Wrapping bytes with [PBPubKeyFromBytes] and asking [PubKeyPBToAddress]
    for the address of the wrapped key is [PubKeyToAddress] on the bytes.
    For 33 bytes the wrapped key holds the bytes and the two programs are
    one.  For another length the wrapping returns the error that
    [PubKeyToAddress] returns, with an unset key, on which
    [PubKeyPBToAddress] reports the length 0. *)
Theorem PBPubKeyFromBytes_PubKeyPBToAddress (b : bytes) :
  exists (pb : cryptopb.PublicKey) (err : option error),
    PBPubKeyFromBytes b = Ret (pb, err) /\
    match err with
    | None =>
        List.length b = 33%nat /\
        cryptopb.GetSecp256K1 pb = b /\
        PubKeyPBToAddress pb = PubKeyToAddress {| crypto.PubKey_Bytes := b |}
    | Some e =>
        List.length b <> 33%nat /\
        PubKeyToAddress {| crypto.PubKey_Bytes := b |} = Ret (zero_array 20, Some e) /\
        PubKeyPBToAddress pb = Ret (zero_array 20, Some (ErrInvalidPubkeyLength 0))
    end.
Proof.
  unfold PBPubKeyFromBytes, PubKeyToAddress, pubkeyCompressedLen;
    cbn [crypto.PubKey_Bytes].
  destruct (Nat.eqb (List.length b) 33) eqn:Hl; cbn [negb];
    eexists; eexists; (split; [reflexivity|]).
  - split; [now apply Nat.eqb_eq|]. split; [reflexivity|].
    unfold PubKeyPBToAddress, pubkeyCompressedLen.
    cbn [cryptopb.GetSecp256K1 cryptopb.Sum]. rewrite Hl. reflexivity.
  - apply Nat.eqb_neq in Hl. split; [exact Hl|]. split; reflexivity.
Qed.

(** X9.  A protobuf key that is not a secp256k1 key, unset or Ed25519 of
    whatever length, has no secp256k1 bytes: [PubKeyPBToAddress] returns the
    length mismatch with length 0 and calls nothing. *)
Theorem PubKeyPBToAddress_not_secp256k1 (pubkey : cryptopb.PublicKey) :
  (forall b : bytes, cryptopb.Sum pubkey <> cryptopb.PublicKey_Secp256K1 b) ->
  PubKeyPBToAddress pubkey = Ret (zero_array 20, Some (ErrInvalidPubkeyLength 0)).
Proof.
  intros Hk. unfold PubKeyPBToAddress, cryptopb.GetSecp256K1.
  destruct (cryptopb.Sum pubkey) as [|e|b]; try reflexivity.
  exfalso. exact (Hk b eq_refl).
Qed.

Lemma PubKeyPBToAddress_not_secp256k1_witness :
  PubKeyPBToAddress
    {| cryptopb.Sum := cryptopb.PublicKey_Ed25519 vector.pubkey_compressed |}
  = Ret (zero_array 20, Some (ErrInvalidPubkeyLength 0)).
Proof.
  apply (PubKeyPBToAddress_not_secp256k1
           {| cryptopb.Sum := cryptopb.PublicKey_Ed25519 vector.pubkey_compressed |}).
  intros b. discriminate.
Defined.

(** X10.  On 33 bytes [CosmosPubkeyToEVMAddress] and [PubKeyToAddress] go the
    same way: both panic or both return, with the same address; the errors
    differ by the wrapping alone, which [PubKeyToAddress] adds and
    [CosmosPubkeyToEVMAddress] does not. *)
Theorem CosmosPubkeyToEVMAddress_PubKeyToAddress (h : Handler K1Call) (b : bytes) :
  List.length b = 33%nat ->
  match run h (CosmosPubkeyToEVMAddress b),
        run h (PubKeyToAddress {| crypto.PubKey_Bytes := b |}) with
  | Returns (addr, err), Returns (addr', err') =>
      addr = addr' /\
      err' = option_map (fun e => Wrap e "decompress pubkey") err
  | Panics, Panics => True
  | _, _ => False
  end.
Proof.
  intros Hl. unfold CosmosPubkeyToEVMAddress, PubKeyToAddress, pubkeyCompressedLen;
    cbn [crypto.PubKey_Bytes].
  rewrite Hl. cbn [Nat.eqb negb run].
  destruct (h _ (ethcrypto_DecompressPubkey b)) as [[[pk|] [c|]]|]; cbn [run];
    try (split; reflexivity); try exact I.
  destruct (h _ (ethcrypto_PubkeyToAddress pk)); [split; reflexivity | exact I].
Qed.

Lemma CosmosPubkeyToEVMAddress_PubKeyToAddress_witness :
  run vector.replay (CosmosPubkeyToEVMAddress vector.pubkey_compressed)
    = Returns (vector.address, None) /\
  match run vector.replay (CosmosPubkeyToEVMAddress vector.pubkey_compressed),
        run vector.replay (PubKeyToAddress (crypto.PubKey_of vector.key)) with
  | Returns (addr, err), Returns (addr', err') =>
      addr = addr' /\
      err' = option_map (fun e => Wrap e "decompress pubkey") err
  | Panics, Panics => True
  | _, _ => False
  end.
Proof.
  split; [reflexivity|].
  exact (CosmosPubkeyToEVMAddress_PubKeyToAddress vector.replay
           vector.pubkey_compressed eq_refl).
Defined.

(** ** The 64-byte form: what is returned and when it panics *)

(** X11.  Whenever [PubKeyFromBytes64] returns: with a nil error the input had 64
    bytes and the key is what the library unmarshalled from the input
    behind the prefix 0x04; with an error no key is returned, and the error
    is the length mismatch, for another length than 64, or the library's
    error wrapped. *)
Theorem PubKeyFromBytes64_returns (h : Handler K1Call) (pubkey : bytes)
    (resp : option stdecdsa.PublicKey) (err : option error) :
  run h (PubKeyFromBytes64 pubkey) = Returns (resp, err) ->
  match err with
  | None =>
      List.length pubkey = 64%nat /\
      h _ (ethcrypto_UnmarshalPubkey (4 :: pubkey)) = Returns (resp, None)
  | Some e =>
      resp = None /\
      (e = ErrInvalidPubkeyLength (List.length pubkey) /\
       List.length pubkey <> 64%nat \/
       List.length pubkey = 64%nat /\
       exists (p : option stdecdsa.PublicKey) (cause : error),
         h _ (ethcrypto_UnmarshalPubkey (4 :: pubkey)) = Returns (p, Some cause) /\
         e = Wrap cause "unmarshal pubkey")
  end.
Proof.
  unfold PubKeyFromBytes64, pubkeyUncompressedLen, prefix04.
  cbn [Nat.sub app].
  destruct (Nat.eqb (List.length pubkey) 64) eqn:Hl; cbn [negb run].
  - apply Nat.eqb_eq in Hl.
    destruct (h _ (ethcrypto_UnmarshalPubkey (4 :: pubkey))) as [[p [c|]]|] eqn:Hu;
      cbn [run]; try discriminate.
    + intros H. injection H as <- <-. split; [reflexivity|]. right.
      split; [exact Hl|]. exists p, c. auto.
    + intros H. injection H as <- <-. auto.
  - apply Nat.eqb_neq in Hl. intros H. injection H as <- <-.
    split; [reflexivity|]. left. auto.
Qed.

Lemma PubKeyFromBytes64_returns_witness :
  (None : option stdecdsa.PublicKey) = None /\
  (ErrInvalidPubkeyLength 65 = ErrInvalidPubkeyLength (List.length (S256.Marshal vector.pubkey)) /\
   List.length (S256.Marshal vector.pubkey) <> 64%nat \/
   List.length (S256.Marshal vector.pubkey) = 64%nat /\
   exists (p : option stdecdsa.PublicKey) (cause : error),
     vector.replay _ (ethcrypto_UnmarshalPubkey (4 :: S256.Marshal vector.pubkey))
       = Returns (p, Some cause) /\
     ErrInvalidPubkeyLength 65 = Wrap cause "unmarshal pubkey").
Proof.
  exact (PubKeyFromBytes64_returns vector.replay (S256.Marshal vector.pubkey)
           None (Some (ErrInvalidPubkeyLength 65)) eq_refl).
Defined.

(** X12.  [PubKeyToBytes64] returns what the library marshals without its first
    byte, whichever byte that is, and panics exactly when the library
    panics or marshals nothing, of which [[1:]] cannot be taken. *)
Theorem PubKeyToBytes64_outcome (h : Handler K1Call) (pubkey : option stdecdsa.PublicKey) :
  (forall xy : bytes,
     run h (PubKeyToBytes64 pubkey) = Returns xy <->
     exists x : byte, h _ (ethcrypto_FromECDSAPub pubkey) = Returns (x :: xy)) /\
  (run h (PubKeyToBytes64 pubkey) = Panics <->
   h _ (ethcrypto_FromECDSAPub pubkey) = Panics \/
   h _ (ethcrypto_FromECDSAPub pubkey) = Returns []).
Proof.
  unfold PubKeyToBytes64. cbn [run].
  destruct (h _ (ethcrypto_FromECDSAPub pubkey)) as [[|x rest]|]; cbn [run].
  - split.
    + intros xy. split; [discriminate | intros [x H]; discriminate].
    + split; auto.
  - split.
    + intros xy. split.
      * intros H. injection H as <-. now exists x.
      * intros [x' H]. now injection H as _ <-.
    + split; [discriminate | intros [H | H]; discriminate].
  - split.
    + intros xy. split; [discriminate | intros [x H]; discriminate].
    + split; auto.
Qed.

(** ** The textual key: what is accepted *)

Local Open Scope string_scope.

Lemma fromHexChar_range (c : ascii) (a : Z) :
  hex.fromHexChar c = Some a -> 0 <= a < 16.
Proof.
  unfold hex.fromHexChar. cbv zeta.
  repeat match goal with
         | |- context [if ?b then _ else _] => destruct b eqn:?
         end; intros H; try discriminate; injection H as <-;
  repeat match goal with
         | H : (_ && _)%bool = true |- _ => apply andb_true_iff in H as [? ?]
         | H : (_ <=? _) = true |- _ => apply Z.leb_le in H
         end; lia.
Qed.

Lemma hex_byte_range (a b : Z) :
  0 <= a < 16 -> 0 <= b < 16 -> 0 <= Z.lor (Z.shiftl a 4) b < 256.
Proof.
  intros Ha Hb.
  assert (Ha' : a = 0 \/ a = 1 \/ a = 2 \/ a = 3 \/ a = 4 \/ a = 5 \/ a = 6 \/ a = 7 \/
                a = 8 \/ a = 9 \/ a = 10 \/ a = 11 \/ a = 12 \/ a = 13 \/ a = 14 \/ a = 15)
    by lia.
  assert (Hb' : b = 0 \/ b = 1 \/ b = 2 \/ b = 3 \/ b = 4 \/ b = 5 \/ b = 6 \/ b = 7 \/
                b = 8 \/ b = 9 \/ b = 10 \/ b = 11 \/ b = 12 \/ b = 13 \/ b = 14 \/ b = 15)
    by lia.
  clear Ha Hb.
  repeat (destruct Ha' as [-> | Ha']); try subst a;
    repeat (destruct Hb' as [-> | Hb']); try subst b; vm_compute; split; congruence.
Qed.

(** What [hex.Decode] returns is made of bytes, and when it reports no
    error it has decoded two characters into each byte. *)
Lemma Decode_shape (n : nat) :
  forall (l : list ascii) (out : bytes) (err : option error),
    (List.length l <= n)%nat -> hex.Decode l = (out, err) ->
    Forall (fun b => 0 <= b < 256) out /\
    (err = None -> List.length l = (2 * List.length out)%nat).
Proof.
  induction n as [|n IH]; intros l out err Hn Hd.
  - destruct l; [|simpl in Hn; lia]. injection Hd as <- <-. auto.
  - destruct l as [|p [|q rest]].
    + injection Hd as <- <-. auto.
    + simpl in Hd. destruct (hex.fromHexChar p); injection Hd as <- <-;
        (split; [constructor | discriminate]).
    + simpl in Hd.
      destruct (hex.fromHexChar p) as [a|] eqn:Hp;
        [|injection Hd as <- <-; split; [constructor | discriminate]].
      destruct (hex.fromHexChar q) as [b|] eqn:Hq;
        [|injection Hd as <- <-; split; [constructor | discriminate]].
      destruct (hex.Decode rest) as [out' err'] eqn:Hr.
      injection Hd as <- <-.
      destruct (IH rest out' err') as [Hf Hl]; [simpl in Hn; lia | exact Hr |].
      split.
      * constructor; [|exact Hf].
        apply hex_byte_range; eapply fromHexChar_range; eassumption.
      * intros He. specialize (Hl He). simpl. lia.
Qed.

Lemma list_ascii_length (s : string) :
  List.length (list_ascii_of_string s) = String.length s.
Proof. induction s as [|c s IH]; simpl; auto. Qed.

(** Replacing at most one [0x] by nothing keeps the length or lowers it
    by two. *)
Lemma Replace_0x_length (s : string) :
  String.length (strings.Replace s "0x" "" 1) = String.length s \/
  String.length s = (String.length (strings.Replace s "0x" "" 1) + 2)%nat.
Proof.
  unfold strings.Replace.
  induction s as [|c s IH]; [left; reflexivity|].
  cbn [strings.Replace_from].
  destruct (prefix "0x" (String c s)) eqn:Hp.
  - apply prefix_0x_head in Hp as [_ [s' ->]]. right.
    cbn [String.length Nat.sub strings.Replace_from append].
    destruct s'; simpl; lia.
  - cbn [String.length]. destruct IH as [IH | IH]; [left | right]; lia.
Qed.

(** X13.  [decodePubKeyFromHex] returns a key or an error, never both and never
    neither.  A returned key has 33 bytes, each in the range of a byte,
    decoded from the input without its first [0x]: the input had 66
    characters, or 68 with a [0x].  An error is the decoding error wrapped
    or the length of what was decoded, which then is not 33. *)
Theorem decodePubKeyFromHex_returns (s : string) :
  match decodePubKeyFromHex s with
  | (Some pk, None) =>
      List.length (cosmosk1.Key pk) = 33%nat /\
      Forall (fun b => 0 <= b < 256) (cosmosk1.Key pk) /\
      hex.DecodeString (strings.Replace s "0x" "" 1) = (cosmosk1.Key pk, None) /\
      (String.length s = 66%nat \/ String.length s = 68%nat)
  | (None, Some e) =>
      (exists (out : bytes) (cause : error),
         hex.DecodeString (strings.Replace s "0x" "" 1) = (out, Some cause) /\
         e = Wrap cause "invalid compressed public key") \/
      (exists out : bytes,
         hex.DecodeString (strings.Replace s "0x" "" 1) = (out, None) /\
         List.length out <> 33%nat /\
         e = New "invalid compressed public key"
               [("length", Z.of_nat (List.length out))])
  | _ => False
  end.
Proof.
  unfold decodePubKeyFromHex, secp256k1.PubKeyBytesLenCompressed.
  destruct (hex.DecodeString (strings.Replace s "0x" "" 1)) as [out [c|]] eqn:Hd.
  - left. exists out, c. auto.
  - destruct (Nat.eqb (List.length out) 33) eqn:Hl; cbn [negb].
    + apply Nat.eqb_eq in Hl. cbn [cosmosk1.Key].
      destruct (Decode_shape _ _ out None (le_n _) Hd) as [Hf Hlen].
      specialize (Hlen eq_refl). rewrite list_ascii_length, Hl in Hlen.
      repeat split; auto.
      destruct (Replace_0x_length s) as [H | H]; [left | right]; lia.
    + apply Nat.eqb_neq in Hl. right. exists out. auto.
Qed.

(** X14.  The two address functions treat the text alike.  Either the decoding
    fails and both return the empty string with the decoding error wrapped
    once more, calling nothing; or both ask the SDK for the address of the
    same decoded key, which has the 33 bytes that [Address()] requires, and
    format it, one as an account address and one as a validator address.
    Neither panics by itself. *)
Theorem CmpPubKeyTo_Addresses (s : string) :
  (exists e : error,
     decodePubKeyFromHex s = (None, Some e) /\
     CmpPubKeyToDelegatorAddress s
       = Ret ("", Some (Wrap e "invalid compressed public key")) /\
     CmpPubKeyToValidatorAddress s
       = Ret ("", Some (Wrap e "invalid compressed public key"))) \/
  (exists pk : cosmosk1.PubKey,
     decodePubKeyFromHex s = (Some pk, None) /\
     List.length (cosmosk1.Key pk) = 33%nat /\
     CmpPubKeyToDelegatorAddress s
       = (a <- PubKey_Address pk ;; str <- AccAddress_String a ;; Ret (str, None)) /\
     CmpPubKeyToValidatorAddress s
       = (a <- PubKey_Address pk ;; str <- ValAddress_String a ;; Ret (str, None))).
Proof.
  assert (H := decodePubKeyFromHex_returns s).
  unfold CmpPubKeyToDelegatorAddress, CmpPubKeyToValidatorAddress.
  destruct (decodePubKeyFromHex s) as [[pk|] [e|]]; try contradiction.
  - right. exists pk. destruct H as [Hl _]. auto.
  - left. exists e. auto.
Qed.

(** X15.  For every text that is the hexadecimal encoding of a 33-byte key,
    [CmpPubKeyToValidatorAddress] is the same program with and without the
    [0x] prefix: the address of the decoded key, formatted as a validator
    address. *)
Theorem CmpPubKeyToValidatorAddress_0x_prefix (s : string) (key : bytes) :
  hex.DecodeString s = (key, None) ->
  List.length key = 33%nat ->
  CmpPubKeyToValidatorAddress ("0x" ++ s) = CmpPubKeyToValidatorAddress s /\
  CmpPubKeyToValidatorAddress s =
    (a <- PubKey_Address {| cosmosk1.Key := key |} ;;
     str <- ValAddress_String a ;;
     Ret (str, None)).
Proof.
  intros Hd Hl.
  assert (Hplain := decodePubKeyFromHex_plain s key Hd Hl).
  unfold CmpPubKeyToValidatorAddress.
  rewrite decodePubKeyFromHex_prefixed, Hplain, Hd, Hl. split; reflexivity.
Qed.

Lemma CmpPubKeyToValidatorAddress_0x_prefix_witness :
  CmpPubKeyToValidatorAddress ("0x" ++ vector.pubkey_hex)
    = CmpPubKeyToValidatorAddress vector.pubkey_hex /\
  CmpPubKeyToValidatorAddress vector.pubkey_hex =
    (a <- PubKey_Address {| cosmosk1.Key := vector.pubkey_compressed |} ;;
     str <- ValAddress_String a ;;
     Ret (str, None)).
Proof.
  apply (CmpPubKeyToValidatorAddress_0x_prefix vector.pubkey_hex vector.pubkey_compressed);
    reflexivity.
Defined.

(** X16.  Only one [0x] is removed: a text that starts with two of them is
    rejected, whatever follows, for the letter x of the second. *)
Theorem decodePubKeyFromHex_second_prefix (t : string) :
  decodePubKeyFromHex ("0x0x" ++ t)
  = (None, Some (Wrap (hex.InvalidByteError "x") "invalid compressed public key")).
Proof.
  change ("0x0x" ++ t) with ("0x" ++ ("0x" ++ t)).
  rewrite decodePubKeyFromHex_prefixed. reflexivity.
Qed.

(** X17.  The prefix is case-sensitive: a text that starts with [0X] and holds
    no letter x keeps its prefix and is rejected for the letter X. *)
Theorem decodePubKeyFromHex_upper_prefix (t : string) :
  x_free t ->
  decodePubKeyFromHex ("0X" ++ t)
  = (None, Some (Wrap (hex.InvalidByteError "X") "invalid compressed public key")).
Proof.
  intros Ht. unfold decodePubKeyFromHex, strings.Replace.
  rewrite Replace_from_x_free.
  - reflexivity.
  - simpl. repeat split; try discriminate. exact Ht.
Qed.

Lemma decodePubKeyFromHex_upper_prefix_witness :
  decodePubKeyFromHex ("0X" ++ vector.pubkey_hex)
  = (None, Some (Wrap (hex.InvalidByteError "X") "invalid compressed public key")).
Proof.
  apply (decodePubKeyFromHex_upper_prefix vector.pubkey_hex).
  exact (DecodeString_ok_x_free vector.pubkey_hex vector.pubkey_compressed eq_refl).
Defined.

Local Close Scope string_scope.

(** ** Sign and Verify: another address *)

(** X6.  Under the library answers of a successful signing and recovery, the
    signature that [Sign] returns is refused for every other address:
    [Verify] returns [false] with a nil error. *)
Theorem Sign_then_Verify_other_address (h : Handler K1Call) (key : crypto.PrivKey)
    (digest : bytes) (priv : secp256k1.PrivateKey) (recid : Z) (r s : bytes)
    (pk : stdecdsa.PublicKey) (addr other : bytes) :
  List.length (crypto.Bytes key) = 32%nat ->
  h _ (secp256k1_PrivKeyFromBytes (crypto.Bytes key)) = Returns priv ->
  h _ (ecdsa_SignCompact priv digest false) = Returns ((27 + recid) :: r ++ s) ->
  List.length r = 32%nat ->
  List.length s = 32%nat ->
  recid = 0 \/ recid = 1 ->
  h _ (ethcrypto_SigToPub digest (r ++ s ++ [recid])) = Returns (Some pk, None) ->
  h _ (ethcrypto_PubkeyToAddress pk) = Returns addr ->
  other <> addr ->
  exists sig : bytes,
    run h (Sign key digest) = Returns (sig, None) /\
    run h (Verify other digest sig) = Returns (false, None).
Proof.
  intros Hk Hpriv Hsig Hr Hs Hrec Hrecover Haddr Hne.
  exists (r ++ s ++ [27 + recid]).
  split; [exact (Sign_rotates h key digest priv _ r s Hk Hpriv Hsig Hr Hs)|].
  rewrite Verify_valid_V
    by (rewrite (rsv_at_64 r s _ Hr Hs); destruct Hrec as [-> | ->]; auto).
  rewrite (rsv_at_64 r s _ Hr Hs), (rsv_set_64 r s _ _ Hr Hs).
  replace (27 + recid - 27) with recid by lia.
  rewrite Hrecover, Haddr, bytes_eqb_neq by congruence. reflexivity.
Qed.

Lemma Sign_then_Verify_other_address_witness :
  exists sig : bytes,
    run vector.replay (Sign vector.key vector.digest) = Returns (sig, None) /\
    run vector.replay (Verify vector.address' vector.digest sig) = Returns (false, None).
Proof.
  apply (Sign_then_Verify_other_address vector.replay vector.key vector.digest
           {| secp256k1.Key := 1 |} vector.recid vector.sig_r vector.sig_s
           vector.pubkey vector.address vector.address');
    first [reflexivity | right; reflexivity | discriminate].
Defined.

(** ** The standard library's keys *)

Lemma run_translate_inl {E F : Type -> Type} (hE : Handler E) (hF : Handler F)
    {A : Type} (p : Prog E A) :
  run (sum_handler hE hF) (translate (@inlE E F) p) = run hE p.
Proof.
  induction p as [a| |X e k IH]; cbn [translate run sum_handler]; try reflexivity.
  destruct (hE X e); [apply IH | reflexivity].
Qed.

(** X18.  Whenever [StdPrivKeyToComet] returns: with a nil error the key is the
    32 bytes that the library wrote for the scalar; with an error no key
    is returned and the error is the invalid key length, the library
    having written another number of bytes. *)
Theorem StdPrivKeyToComet_returns (h : Handler StdCall)
    (privkey : option stdecdsa_priv.PrivateKey) (k : option k1.PrivKey)
    (err : option error) :
  run h (StdPrivKeyToComet privkey) = Returns (k, err) ->
  exists bz : bytes,
    h _ (ethcrypto_FromECDSA privkey) = Returns bz /\
    match err with
    | None => k = Some {| k1.PrivKey_bz := bz |} /\ List.length bz = 32%nat
    | Some e => k = None /\ e = ErrInvalidPrivKeyLength /\ List.length bz <> 32%nat
    end.
Proof.
  unfold StdPrivKeyToComet, privKeyLen. cbn [run].
  destruct (h _ (ethcrypto_FromECDSA privkey)) as [bz|]; [|discriminate].
  destruct (Nat.eqb (List.length bz) 32) eqn:Hl; cbn [negb run];
    intros H; injection H as <- <-; exists bz; split; try reflexivity.
  - apply Nat.eqb_eq in Hl. auto.
  - apply Nat.eqb_neq in Hl. auto.
Qed.

Lemma StdPrivKeyToComet_returns_witness :
  exists bz : bytes,
    std_vector.replay _ (ethcrypto_FromECDSA None) = Returns bz /\
    (None : option k1.PrivKey) = None /\
    ErrInvalidPrivKeyLength = ErrInvalidPrivKeyLength /\
    List.length bz <> 32%nat.
Proof.
  exact (StdPrivKeyToComet_returns std_vector.replay None None
           (Some ErrInvalidPrivKeyLength) eq_refl).
Defined.

(** X19.  Whenever [StdPrivKeyFromComet] returns: with a nil error the key had
    32 bytes and the result is what the library made of them; with an
    error no key is returned, and the error is the invalid key length, for
    a key of another length than 32, or the library's error wrapped. *)
Theorem StdPrivKeyFromComet_returns (h : Handler StdCall) (privkey : crypto.PrivKey)
    (resp : option stdecdsa_priv.PrivateKey) (err : option error) :
  run h (StdPrivKeyFromComet privkey) = Returns (resp, err) ->
  let bz := crypto.Bytes privkey in
  match err with
  | None =>
      List.length bz = 32%nat /\ h _ (ethcrypto_ToECDSA bz) = Returns (resp, None)
  | Some e =>
      resp = None /\
      (e = ErrInvalidPrivKeyLength /\ List.length bz <> 32%nat \/
       List.length bz = 32%nat /\
       exists (p : option stdecdsa_priv.PrivateKey) (cause : error),
         h _ (ethcrypto_ToECDSA bz) = Returns (p, Some cause) /\
         e = Wrap cause "convert to ECDSA")
  end.
Proof.
  unfold StdPrivKeyFromComet, privKeyLen. cbv zeta.
  destruct (Nat.eqb (List.length (crypto.Bytes privkey)) 32) eqn:Hl; cbn [negb run].
  - apply Nat.eqb_eq in Hl.
    destruct (h _ (ethcrypto_ToECDSA _)) as [[p [c|]]|] eqn:Hu;
      cbn [run]; try discriminate.
    + intros H. injection H as <- <-. split; [reflexivity|]. right.
      split; [exact Hl|]. exists p, c. auto.
    + intros H. injection H as <- <-. auto.
  - apply Nat.eqb_neq in Hl. intros H. injection H as <- <-.
    split; [reflexivity|]. left. auto.
Qed.

Lemma StdPrivKeyFromComet_returns_witness :
  let bz := crypto.Bytes vector.key in
  List.length bz = 32%nat /\
  std_vector.replay _ (ethcrypto_ToECDSA bz) = Returns (Some std_vector.privkey, None).
Proof.
  exact (StdPrivKeyFromComet_returns std_vector.replay vector.key
           (Some std_vector.privkey) None eq_refl).
Defined.

(** X20.  The round trip of a private key: when the library writes the scalar
    of [priv] as 32 bytes and reads [priv] back from them,
    [StdPrivKeyToComet] returns those bytes as the key and
    [StdPrivKeyFromComet] on a key with those bytes returns [priv]. *)
Theorem StdPrivKey_roundtrip (h : Handler StdCall) (priv : stdecdsa_priv.PrivateKey)
    (d : bytes) (key : crypto.PrivKey) :
  h _ (ethcrypto_FromECDSA (Some priv)) = Returns d ->
  List.length d = 32%nat ->
  h _ (ethcrypto_ToECDSA d) = Returns (Some priv, None) ->
  crypto.Bytes key = d ->
  run h (StdPrivKeyToComet (Some priv)) = Returns (Some {| k1.PrivKey_bz := d |}, None) /\
  run h (StdPrivKeyFromComet key) = Returns (Some priv, None).
Proof.
  intros Hf Hl Ht Hk. split.
  - unfold StdPrivKeyToComet, privKeyLen. cbn [run]. rewrite Hf, Hl. reflexivity.
  - unfold StdPrivKeyFromComet, privKeyLen. rewrite Hk, Hl.
    cbn [Nat.eqb negb run]. rewrite Ht. reflexivity.
Qed.

Lemma StdPrivKey_roundtrip_witness :
  run std_vector.replay (StdPrivKeyToComet (Some std_vector.privkey))
    = Returns (Some {| k1.PrivKey_bz := vector.privkey |}, None) /\
  run std_vector.replay (StdPrivKeyFromComet vector.key)
    = Returns (Some std_vector.privkey, None).
Proof.
  apply (StdPrivKey_roundtrip std_vector.replay std_vector.privkey vector.privkey
           vector.key); reflexivity.
Defined.

(** X21.  A key that [StdPrivKeyToComet] returns has the length that the rest
    of the package asks for: on a key with its bytes neither [Sign] nor
    [StdPrivKeyFromComet] stops at the length check; each goes on to the
    library. *)
Theorem StdPrivKeyToComet_key_accepted (h : Handler StdCall)
    (privkey : option stdecdsa_priv.PrivateKey) (k : k1.PrivKey)
    (key : crypto.PrivKey) (input : bytes) :
  run h (StdPrivKeyToComet privkey) = Returns (Some k, None) ->
  crypto.Bytes key = k1.PrivKey_bz k ->
  Sign key input =
    (priv <- secp256k1_PrivKeyFromBytes (k1.PrivKey_bz k) ;;
     sig <- ecdsa_SignCompact priv input false ;;
     match sig with
     | [] => Panic
     | sig0 :: sig1 => Ret (cast.Array65 (sig1 ++ [sig0]))
     end) /\
  StdPrivKeyFromComet key =
    (r <- ethcrypto_ToECDSA (k1.PrivKey_bz k) ;;
     match r with
     | (_, Some err) => Ret (None, Some (Wrap err "convert to ECDSA"))
     | (resp, None) => Ret (resp, None)
     end).
Proof.
  unfold StdPrivKeyToComet, privKeyLen. cbn [run].
  destruct (h _ (ethcrypto_FromECDSA privkey)) as [bz|]; [|discriminate].
  destruct (Nat.eqb (List.length bz) 32) eqn:Hl; cbn [negb run]; [|discriminate].
  intros H Hk. injection H as <-. cbn [k1.PrivKey_bz] in *.
  unfold Sign, StdPrivKeyFromComet, privKeyLen. rewrite Hk, Hl. split; reflexivity.
Qed.

Lemma StdPrivKeyToComet_key_accepted_witness :
  Sign vector.key vector.digest =
    (priv <- secp256k1_PrivKeyFromBytes vector.privkey ;;
     sig <- ecdsa_SignCompact priv vector.digest false ;;
     match sig with
     | [] => Panic
     | sig0 :: sig1 => Ret (cast.Array65 (sig1 ++ [sig0]))
     end) /\
  StdPrivKeyFromComet vector.key =
    (r <- ethcrypto_ToECDSA vector.privkey ;;
     match r with
     | (_, Some err) => Ret (None, Some (Wrap err "convert to ECDSA"))
     | (resp, None) => Ret (resp, None)
     end).
Proof.
  exact (StdPrivKeyToComet_key_accepted std_vector.replay (Some std_vector.privkey)
           {| k1.PrivKey_bz := vector.privkey |} vector.key vector.digest
           eq_refl eq_refl).
Defined.

(** X22.  [StdPubKeyToCosmos] is [PubKeyToCosmos] on the bytes to which the
    library compresses the key: the SDK key holds exactly those bytes when
    they are 33, and otherwise the result is the length mismatch with the
    offending length.  It panics when the compression does. *)
Theorem StdPubKeyToCosmos_outcome (hK : Handler K1Call) (hS : Handler StdCall)
    (pubkey : option stdecdsa.PublicKey) :
  match hS _ (ethcrypto_CompressPubkey pubkey) with
  | Returns b =>
      run (sum_handler hK hS) (StdPubKeyToCosmos pubkey)
        = run hK (PubKeyToCosmos {| crypto.PubKey_Bytes := b |}) /\
      run (sum_handler hK hS) (StdPubKeyToCosmos pubkey)
        = Returns (if Nat.eqb (List.length b) 33
                   then (Some {| cosmosk1.Key := b |}, None)
                   else (None, Some (ErrInvalidPubkeyLength (List.length b))))
  | Panics => run (sum_handler hK hS) (StdPubKeyToCosmos pubkey) = Panics
  end.
Proof.
  unfold StdPubKeyToCosmos. cbn [run sum_handler].
  destruct (hS _ (ethcrypto_CompressPubkey pubkey)) as [b|]; [|reflexivity].
  rewrite run_translate_inl. split; [reflexivity|].
  unfold PubKeyBytesToCosmos, pubkeyCompressedLen.
  destruct (Nat.eqb (List.length b) 33); reflexivity.
Qed.
